(** * photoMir: synchronising image metadata between a bucket and a document store

    A shallow embedding of [main.py].  Python [str] values are modelled as
    [string] (sequences of code points below 256), the two identifier sets as
    [gset string], the [images] collection as a [gmap] from document id to
    metadata, and every remote call as a step of a small state-and-exception
    monad that records the call in a trace. *)

From Stdlib Require Import ZArith Ascii String List Lia.
From stdpp Require Import base tactics option list sets gmap strings.

Local Open Scope string_scope.
Local Open Scope list_scope.
Local Open Scope Z_scope.

(** ** Python string primitives used by the script *)

Module PyStr.

(** [s[i:]] for [0 <= i]. *)
Fixpoint drop_chars (n : nat) (s : string) : string :=
  match n, s with
  | O, _ => s
  | S _, EmptyString => EmptyString
  | S n', String _ s' => drop_chars n' s'
  end.

Definition slice_from (i : Z) (s : string) : string := drop_chars (Z.to_nat i) s.

(** [s.rfind(ch)]: the highest index at which [ch] occurs, [-1] when absent. *)
Fixpoint rfind (ch : ascii) (s : string) : Z :=
  match s with
  | EmptyString => -1
  | String c s' =>
      let r := rfind ch s' in
      if 0 <=? r then r + 1
      else if Ascii.eqb c ch then 0 else -1
  end.

(** [s.startswith(p)] *)
Fixpoint startswith (s p : string) {struct p} : bool :=
  match p, s with
  | EmptyString, _ => true
  | String _ _, EmptyString => false
  | String a p', String b s' => Ascii.eqb a b && startswith s' p'
  end.

(** [s.endswith(suf)] with a single suffix. *)
Fixpoint endswith (s suf : string) : bool :=
  if String.eqb s suf then true
  else match s with
       | EmptyString => false
       | String _ s' => endswith s' suf
       end.

(** [s.endswith((suf1, suf2, ...))]: true when some suffix of the tuple fits. *)
Definition endswith_any (s : string) (sufs : list string) : bool :=
  existsb (endswith s) sufs.

(** [s.split(sep)] for a one-character separator: never returns the empty
    list, and [''.split(',') == ['']]. *)
Fixpoint split (sep : ascii) (s : string) : list string :=
  match s with
  | EmptyString => [EmptyString]
  | String c s' =>
      if Ascii.eqb c sep then EmptyString :: split sep s'
      else match split sep s' with
           | seg :: segs => String c seg :: segs
           | [] => [String c EmptyString]
           end
  end.

(** [ch.isspace()] for code points below 256: tab, line feed, vertical tab,
    form feed, carriage return, the four separators 0x1c-0x1f, space,
    next-line 0x85 and no-break space 0xa0. *)
Definition isspace (c : ascii) : bool :=
  let n := nat_of_ascii c in
  ((9 <=? n) && (n <=? 13) || (28 <=? n) && (n <=? 32)
   || (n =? 133) || (n =? 160))%nat.

(** [s.lstrip()], [s.rstrip()] and [s.strip()] without argument. *)
Fixpoint lstrip (s : string) : string :=
  match s with
  | EmptyString => EmptyString
  | String c s' => if isspace c then lstrip s' else s
  end.

Fixpoint rstrip (s : string) : string :=
  match s with
  | EmptyString => EmptyString
  | String c s' =>
      match rstrip s' with
      | EmptyString => if isspace c then EmptyString else String c EmptyString
      | r => String c r
      end
  end.

Definition strip (s : string) : string := rstrip (lstrip s).

(** Truth value of a string: only the empty string is falsy. *)
Definition truthy (s : string) : bool :=
  match s with EmptyString => false | _ => true end.

(** [os.path.basename(p)] of [posixpath]: [i = p.rfind('/') + 1; p[i:]]. *)
Definition basename (p : string) : string :=
  let i := rfind "/"%char p + 1 in
  slice_from i p.

(** [ch in s] *)
Fixpoint contains (ch : ascii) (s : string) : bool :=
  match s with
  | EmptyString => false
  | String c s' => Ascii.eqb c ch || contains ch s'
  end.

(** [sep.join(parts)] *)
Fixpoint join (sep : string) (parts : list string) : string :=
  match parts with
  | [] => EmptyString
  | [part] => part
  | part :: rest => part +:+ sep +:+ join sep rest
  end.

(** Every character is white space. *)
Fixpoint all_space (s : string) : bool :=
  match s with
  | EmptyString => true
  | String c s' => isspace c && all_space s'
  end.

(** The first, respectively last, character exists and is white space. *)
Definition head_space (s : string) : bool :=
  match s with
  | EmptyString => false
  | String c _ => isspace c
  end.

Fixpoint last_space (s : string) : bool :=
  match s with
  | EmptyString => false
  | String c EmptyString => isspace c
  | String _ s' => last_space s'
  end.

End PyStr.

(** ** Data carried by the script *)

(** Raw object content, as returned by [blob.download_as_bytes()]. *)
Abbreviation bytes := (list Byte.byte).

(** Exceptions raised by the remote services and by image decoding. *)
Inductive Exn : Type :=
| NotFound (name : string)
| ServiceError (detail : string)
| UnidentifiedImage.

(** A decoded picture ([PIL.Image.open]). *)
Inductive Image : Type :=
| Decoded (content : bytes).

(** One entry of the list returned by [translate_client.translate]. *)
Record Translation : Type := mkTranslation {
  input : string;
  translatedText : string
}.

(** The dictionary built by [get_image_metadata] and stored as a document. *)
Record Metadata : Type := mkMetadata {
  file_id : string;
  file_name : string;
  tags_en : list string;
  tags_pt : list string;
  processed_at : string
}.

(** Lines written with [print]. *)
Inductive LogLine : Type :=
| LogStart
| LogFirestoreError (e : Exn)
| LogDeleting (count : nat)
| LogDeleted (doc_id : string)
| LogDeleteError (doc_id : string) (e : Exn)
| LogNoneRemoved
| LogNewCount (count : nat)
| LogProcessingStart
| LogProcessing (i total : nat) (path : string)
| LogGeminiError (e : Exn)
| LogSaved (doc_id : string)
| LogProcessError (path : string) (e : Exn)
| LogNoneNew
| LogDone.

(** What the run does to the outside world, in order: every remote call
    (recorded when it is issued, whether it then fails or not) and every
    printed line. *)
Inductive Event : Type :=
| CallListBlobs (bucket_name folder_path : string)
| CallStream
| CallDelete (doc_id : string)
| CallDownload (bucket_name path : string)
| CallGenerate (img : Image)
| CallTranslate (values : list string) (target_language : string)
| CallSet (doc_id : string) (data : Metadata)
| Print (line : LogLine).

(** The outside world: the objects of every bucket (by bucket name, then by
    object name), the [images] collection, and the trace so far. *)
Record World : Type := mkWorld {
  storage : string -> gmap string bytes;
  images : gmap string Metadata;
  trace : list Event
}.

(** Environment variables read at start-up. *)
Record Config : Type := mkConfig {
  BUCKET_NAME : string;
  BUCKET_FOLDER_PATH : string
}.

(** ** The state-and-exception monad *)

Inductive Result (A : Type) : Type :=
| Ok (a : A)
| Raise (e : Exn).
Arguments Ok {A} a.
Arguments Raise {A} e.

Definition M (A : Type) : Type := World -> Result A * World.

Definition ret {A} (a : A) : M A := fun w => (Ok a, w).

Definition raise {A} (e : Exn) : M A := fun w => (Raise e, w).

Definition bind {A B} (m : M A) (k : A -> M B) : M B :=
  fun w =>
    match m w with
    | (Ok a, w') => k a w'
    | (Raise e, w') => (Raise e, w')
    end.

(** [try: m  except Exception as e: h e] *)
Definition try_except {A} (m : M A) (h : Exn -> M A) : M A :=
  fun w =>
    match m w with
    | (Ok a, w') => (Ok a, w')
    | (Raise e, w') => h e w'
    end.

Declare Scope sync_scope.
Delimit Scope sync_scope with sync.
Notation "'let*' x ':=' m 'in' k" := (bind m (fun x => k))
  (at level 10, x name, m at level 100, k at level 200) : sync_scope.
Notation "m '>>' k" := (bind m (fun _ => k))
  (at level 100, k at level 200, right associativity) : sync_scope.
Local Open Scope sync_scope.

Definition emit (ev : Event) : M unit :=
  fun w => (Ok tt, mkWorld (storage w) (images w) (trace w ++ [ev])).

Definition print (line : LogLine) : M unit := emit (Print line).

(** [for x in xs: body x] *)
Fixpoint for_each {A} (xs : list A) (body : A -> M unit) : M unit :=
  match xs with
  | [] => ret tt
  | x :: xs' => body x >> for_each xs' body
  end.

(** [enumerate(xs, start)] *)
Fixpoint enumerate {A} (xs : list A) (start : nat) : list (nat * A) :=
  match xs with
  | [] => []
  | x :: xs' => (start, x) :: enumerate xs' (S start)
  end.

(** ** The remote services *)

(** How the collaborators answer.  Every answer may depend on the trace at the
    moment of the call, so a service can fail at one call and succeed at the
    next.  [set_order] is the order in which a Python [set] is iterated. *)
Record Services : Type := mkServices {
  list_blobs_error : list Event -> option Exn;
  stream_error : list Event -> option Exn;
  delete_error : list Event -> string -> option Exn;
  download_error : list Event -> string -> option Exn;
  image_open : bytes -> Result Image;
  generate_content : list Event -> Image -> Result (option string);
  translate : list Event -> list string -> Result (list Translation);
  set_error : list Event -> Metadata -> option Exn;
  utc_now_isoformat : list Event -> string;
  set_order : gset string -> list string
}.

(** The extensions accepted by the lister. *)
Definition IMAGE_EXTENSIONS : list string := [".jpg"; ".jpeg"; ".png"].

(** Lines 71-76: the loop of [list_images_in_bucket] over the listed names. *)
Definition collect_images (blobs : list string) (folder_path : string) : gset string :=
  foldl (fun (files : gset string) (name : string) =>
           if PyStr.endswith_any name IMAGE_EXTENSIONS then
             if negb (String.eqb name folder_path) then
               {[ PyStr.basename name ]} ∪ files
             else files
           else files)
        ∅ blobs.

(** The names a prefix listing of the bucket returns. *)
Definition blobs_under (objs : gmap string bytes) (prefix : string) : list string :=
  List.filter (fun name => PyStr.startswith name prefix) (elements (dom objs)).

(** Lines 99-102: tags out of the model's reply. *)
Definition extract_tags (text : option string) : list string :=
  match text with
  | Some gemini_tags_text =>
      if PyStr.truthy gemini_tags_text then
        List.map PyStr.strip
          (List.filter (fun tag => PyStr.truthy (PyStr.strip tag))
             (PyStr.split ","%char gemini_tags_text))
      else []
  | None => []
  end.

(** The parser in the words of the specification: split on commas, trim
    every segment, drop the segments that are empty after trimming. *)
Definition parse_tags_spec (text : string) : list string :=
  List.filter PyStr.truthy (List.map PyStr.strip (PyStr.split ","%char text)).

Section Script.

Context (cfg : Config) (svc : Services).

(** [bucket.list_blobs(prefix=folder_path)] *)
Definition list_blobs (bucket_name folder_path : string) : M (list string) :=
  fun w =>
    let w' := mkWorld (storage w) (images w)
                      (trace w ++ [CallListBlobs bucket_name folder_path]) in
    match list_blobs_error svc (trace w) with
    | Some e => (Raise e, w')
    | None => (Ok (blobs_under (storage w bucket_name) folder_path), w')
    end.

(** [blob.download_as_bytes()] *)
Definition download_as_bytes (bucket_name path : string) : M bytes :=
  fun w =>
    let w' := mkWorld (storage w) (images w)
                      (trace w ++ [CallDownload bucket_name path]) in
    match download_error svc (trace w) path with
    | Some e => (Raise e, w')
    | None =>
        match storage w bucket_name !! path with
        | Some content => (Ok content, w')
        | None => (Raise (NotFound path), w')
        end
    end.

(** [gemini_model.generate_content([GEMINI_PROMPT, img])], read through
    [response.text]. *)
Definition gemini_generate (img : Image) : M (option string) :=
  fun w =>
    (generate_content svc (trace w) img,
     mkWorld (storage w) (images w) (trace w ++ [CallGenerate img])).

(** [translate_client.translate(values, target_language=...)] *)
Definition translate_batch (values : list string) (target_language : string)
  : M (list Translation) :=
  fun w =>
    (translate svc (trace w) values,
     mkWorld (storage w) (images w)
             (trace w ++ [CallTranslate values target_language])).

(** [{doc.id for doc in db.collection('images').stream()}] *)
Definition stream_doc_ids : M (gset string) :=
  fun w =>
    let w' := mkWorld (storage w) (images w) (trace w ++ [CallStream]) in
    match stream_error svc (trace w) with
    | Some e => (Raise e, w')
    | None => (Ok (dom (images w)), w')
    end.

(** [db.collection('images').document(doc_id).delete()] *)
Definition document_delete (doc_id : string) : M unit :=
  fun w =>
    let tr := trace w ++ [CallDelete doc_id] in
    match delete_error svc (trace w) doc_id with
    | Some e => (Raise e, mkWorld (storage w) (images w) tr)
    | None => (Ok tt, mkWorld (storage w) (delete doc_id (images w)) tr)
    end.

(** [db.collection('images').document(doc_id).set(data)] *)
Definition document_set (doc_id : string) (data : Metadata) : M unit :=
  fun w =>
    let tr := trace w ++ [CallSet doc_id data] in
    match set_error svc (trace w) data with
    | Some e => (Raise e, mkWorld (storage w) (images w) tr)
    | None => (Ok tt, mkWorld (storage w) (<[doc_id := data]> (images w)) tr)
    end.

(** [datetime.now(timezone.utc).isoformat()] *)
Definition now_isoformat : M string :=
  fun w => (Ok (utc_now_isoformat svc (trace w)), w).

Definition lift_result {A} (r : Result A) : M A := fun w => (r, w).

(** [list_images_in_bucket] *)
Definition list_images_in_bucket (bucket_name folder_path : string) : M (gset string) :=
  let* blobs := list_blobs bucket_name folder_path in
  ret (collect_images blobs folder_path).

(** Lines 104-108: the translation step. *)
Definition translate_tags (all_tags_en : list string) : M (list string) :=
  match all_tags_en with
  | [] => ret []
  | _ :: _ =>
      let* translations := translate_batch all_tags_en "pt" in
      ret (List.map translatedText translations)
  end.

(** [get_image_metadata] *)
Definition get_image_metadata (file_name_with_path : string) : M Metadata :=
  let* file_content := download_as_bytes (BUCKET_NAME cfg) file_name_with_path in
  let* img := lift_result (image_open svc file_content) in
  let* response :=
    try_except (gemini_generate img)
               (fun e => print (LogGeminiError e) >> raise e) in
  let all_tags_en := extract_tags response in
  let* all_tags_pt := translate_tags all_tags_en in
  let doc_id := PyStr.basename file_name_with_path in
  let* stamp := now_isoformat in
  ret {| file_id := doc_id;
         file_name := file_name_with_path;
         tags_en := all_tags_en;
         tags_pt := all_tags_pt;
         processed_at := stamp |}.

(** [save_metadata_to_firestore] *)
Definition save_metadata_to_firestore (metadata : Metadata) : M unit :=
  let doc_id := file_id metadata in
  document_set doc_id metadata >>
  print (LogSaved doc_id).

(** Lines 143-147: one turn of the deletion loop. *)
Definition delete_one (file_id : string) : M unit :=
  try_except
    (document_delete file_id >> print (LogDeleted file_id))
    (fun e => print (LogDeleteError file_id e)).

(** Lines 140-149. *)
Definition delete_removed (deleted_image_ids : gset string) : M unit :=
  if decide (deleted_image_ids = ∅) then print LogNoneRemoved
  else
    print (LogDeleting (size deleted_image_ids)) >>
    for_each (set_order svc deleted_image_ids) delete_one.

(** Lines 158-164: one turn of the creation loop. *)
Definition process_one (total : nat) (item : nat * string) : M unit :=
  let '(i, file_id) := item in
  let file_name_with_path := BUCKET_FOLDER_PATH cfg +:+ file_id in
  print (LogProcessing i total file_name_with_path) >>
  try_except
    (let* metadata := get_image_metadata file_name_with_path in
     save_metadata_to_firestore metadata)
    (fun e => print (LogProcessError file_name_with_path e)).

(** Lines 153-166. *)
Definition process_new (new_image_ids : gset string) : M unit :=
  if decide (new_image_ids = ∅) then print LogNoneNew
  else
    print (LogNewCount (size new_image_ids)) >>
    print LogProcessingStart >>
    for_each (enumerate (set_order svc new_image_ids) 1)
             (process_one (size new_image_ids)).

(** Lines 139-168: what [main] does once both identifier sets are known. *)
Definition reconcile (storage_image_ids firestore_doc_ids : gset string) : M unit :=
  let deleted_image_ids := firestore_doc_ids ∖ storage_image_ids in
  delete_removed deleted_image_ids >>
  let new_image_ids := storage_image_ids ∖ firestore_doc_ids in
  process_new new_image_ids >>
  print LogDone.

(** [main].  The handler of the store listing prints and returns; the rest
    of the function runs only when the listing has answered. *)
Definition main : M unit :=
  print LogStart >>
  let* storage_image_ids :=
    list_images_in_bucket (BUCKET_NAME cfg) (BUCKET_FOLDER_PATH cfg) in
  fun w =>
    match stream_doc_ids w with
    | (Raise e, w') => print (LogFirestoreError e) w'
    | (Ok firestore_doc_ids, w') =>
        reconcile storage_image_ids firestore_doc_ids w'
    end.

End Script.

(** ** Reading a trace *)

Definition delete_calls (evs : list Event) : list string :=
  omap (fun ev => match ev with CallDelete d => Some d | _ => None end) evs.

Definition download_calls (evs : list Event) : list string :=
  omap (fun ev => match ev with CallDownload _ p => Some p | _ => None end) evs.

Definition generate_calls (evs : list Event) : list Image :=
  omap (fun ev => match ev with CallGenerate i => Some i | _ => None end) evs.

Definition translate_calls (evs : list Event) : list (list string) :=
  omap (fun ev => match ev with CallTranslate v _ => Some v | _ => None end) evs.

Definition set_calls (evs : list Event) : list (string * Metadata) :=
  omap (fun ev => match ev with CallSet d m => Some (d, m) | _ => None end) evs.

Definition printed (evs : list Event) : list LogLine :=
  omap (fun ev => match ev with Print l => Some l | _ => None end) evs.

(** A printed line that reports a failure. *)
Definition is_error_line (l : LogLine) : bool :=
  match l with
  | LogFirestoreError _ | LogDeleteError _ _
  | LogGeminiError _ | LogProcessError _ _ => true
  | _ => false
  end.

(** A folder prefix that is empty or ends with a slash. *)
Definition folder_like (prefix : string) : bool :=
  negb (PyStr.truthy prefix) || PyStr.endswith prefix "/".

(** The identifier set the lister computes from the bucket, and the one
    the store holds. *)
Definition present_ids (cfg : Config) (w : World) : gset string :=
  collect_images
    (blobs_under (storage w (BUCKET_NAME cfg)) (BUCKET_FOLDER_PATH cfg))
    (BUCKET_FOLDER_PATH cfg).

Definition stored_ids (w : World) : gset string := dom (images w).

(** The trace at the moment [main] issues the bucket listing, and at the
    moment it issues the store listing. *)
Definition listing_history (w : World) : list Event :=
  trace w ++ [Print LogStart].

Definition stream_history (cfg : Config) (w : World) : list Event :=
  trace w ++ [Print LogStart;
              CallListBlobs (BUCKET_NAME cfg) (BUCKET_FOLDER_PATH cfg)].

(** Iterating a set visits each element once, in some order. *)
Definition iterates_sets (svc : Services) : Prop :=
  forall X : gset string, set_order svc X ≡ₚ elements X.

(** The translation service answers a batch entry by entry: the i-th entry
    of the answer is the one for the i-th input. *)
Definition translation_aligned (svc : Services) : Prop :=
  forall h values ts, translate svc h values = Ok ts -> List.map input ts = values.

(** No line reporting a failure was printed. *)
Definition clean (evs : list Event) : Prop :=
  Forall (fun l => is_error_line l = false) (printed evs).

(** What a run of the deletion loop over [ids] leaves behind. *)
Record DeletePost (ids : list string) (w w' : World) (evs : list Event) : Prop := {
  dp_storage : storage w' = storage w;
  dp_trace : trace w' = trace w ++ evs;
  dp_deletes : delete_calls evs = ids;
  dp_downloads : download_calls evs = [];
  dp_sets : set_calls evs = [];
  dp_generates : generate_calls evs = [];
  dp_translates : translate_calls evs = [];
  dp_frame : forall k,
      images w' !! k = images w !! k \/ (k ∈ ids /\ images w' !! k = None);
  dp_done : forall id, id ∈ ids ->
      (exists e, Print (LogDeleteError id e) ∈ evs) \/ images w' !! id = None
}.

(** What a run of the creation loop over [ids] leaves behind. *)
Record CreatePost (cfg : Config) (ids : list string) (w w' : World)
       (evs : list Event) : Prop := {
  cp_storage : storage w' = storage w;
  cp_trace : trace w' = trace w ++ evs;
  cp_downloads :
    download_calls evs = List.map (String.append (BUCKET_FOLDER_PATH cfg)) ids;
  cp_deletes : delete_calls evs = [];
  cp_sets : forall k md, (k, md) ∈ set_calls evs ->
      exists id, id ∈ ids /\ k = PyStr.basename (BUCKET_FOLDER_PATH cfg +:+ id)
                 /\ file_name md = BUCKET_FOLDER_PATH cfg +:+ id
                 /\ file_id md = k
                 /\ is_Some (storage w (BUCKET_NAME cfg)
                               !! (BUCKET_FOLDER_PATH cfg +:+ id));
  cp_frame : forall k,
      images w' !! k = images w !! k
      \/ exists md, (k, md) ∈ set_calls evs /\ images w' !! k = Some md;
  cp_done : forall id, id ∈ ids ->
      (exists e, Print (LogProcessError (BUCKET_FOLDER_PATH cfg +:+ id) e) ∈ evs)
      \/ exists md,
          images w' !! PyStr.basename (BUCKET_FOLDER_PATH cfg +:+ id) = Some md
          /\ file_name md = BUCKET_FOLDER_PATH cfg +:+ id
          /\ Print (LogSaved (PyStr.basename (BUCKET_FOLDER_PATH cfg +:+ id))) ∈ evs
}.

(** The world with further events on its trace, and the world in which
    [main] starts reconciling: both listings have been issued. *)
Definition after (w : World) (evs : list Event) : World :=
  mkWorld (storage w) (images w) (trace w ++ evs).

Definition at_reconcile (cfg : Config) (w : World) : World :=
  after w [Print LogStart;
           CallListBlobs (BUCKET_NAME cfg) (BUCKET_FOLDER_PATH cfg);
           CallStream].

(** No call that changes the store or reaches the pipeline. *)
Definition quiet (evs : list Event) : Prop :=
  delete_calls evs = [] /\ download_calls evs = [] /\ generate_calls evs = []
  /\ translate_calls evs = [] /\ set_calls evs = [].

(** What [reconcile] leaves behind, in terms of the two identifier sets. *)
Record Reconciled (cfg : Config) (present stored : gset string)
       (w w' : World) (evs : list Event) : Prop := {
  rc_storage : storage w' = storage w;
  rc_trace : trace w' = trace w ++ evs;
  rc_deletes : delete_calls evs ≡ₚ elements (stored ∖ present);
  rc_downloads :
    download_calls evs
    ≡ₚ List.map (String.append (BUCKET_FOLDER_PATH cfg)) (elements (present ∖ stored));
  rc_sets : forall k md, (k, md) ∈ set_calls evs ->
      exists id, id ∈ present ∖ stored
                 /\ k = PyStr.basename (BUCKET_FOLDER_PATH cfg +:+ id)
                 /\ file_name md = BUCKET_FOLDER_PATH cfg +:+ id
                 /\ file_id md = k
                 /\ is_Some (storage w (BUCKET_NAME cfg)
                               !! (BUCKET_FOLDER_PATH cfg +:+ id));
  rc_frame : forall k,
      images w' !! k = images w !! k
      \/ (k ∈ stored ∖ present /\ images w' !! k = None)
      \/ exists md, (k, md) ∈ set_calls evs /\ images w' !! k = Some md;
  rc_deleted : forall id, id ∈ stored ∖ present ->
      (exists e, Print (LogDeleteError id e) ∈ evs) \/ images w' !! id = None;
  rc_created : forall id, id ∈ present ∖ stored ->
      (exists e, Print (LogProcessError (BUCKET_FOLDER_PATH cfg +:+ id) e) ∈ evs)
      \/ exists md,
          images w' !! PyStr.basename (BUCKET_FOLDER_PATH cfg +:+ id) = Some md
          /\ file_name md = BUCKET_FOLDER_PATH cfg +:+ id
          /\ Print (LogSaved (PyStr.basename (BUCKET_FOLDER_PATH cfg +:+ id))) ∈ evs;
  rc_last : last evs = Some (Print LogDone)
}.

(** ** Concrete worlds used to exercise the script *)

Module Demo.

(** Collaborators that always answer; the model replies with a fixed list of
    tags and the translator prefixes every tag. *)
Definition reliable : Services := {|
  list_blobs_error := fun _ => None;
  stream_error := fun _ => None;
  delete_error := fun _ _ => None;
  download_error := fun _ _ => None;
  image_open := fun content => Ok (Decoded content);
  generate_content := fun _ _ => Ok (Some "cat, dog, outdoor,");
  translate := fun _ values =>
    Ok (List.map (fun v => mkTranslation v ("pt:" +:+ v)) values);
  set_error := fun _ _ => None;
  utc_now_isoformat := fun _ => "2024-05-01T12:00:00+00:00";
  set_order := elements
|}.

(** The same, with a store whose listing fails. *)
Definition store_down : Services := {|
  list_blobs_error := fun _ => None;
  stream_error := fun _ => Some (ServiceError "unavailable");
  delete_error := delete_error reliable;
  download_error := download_error reliable;
  image_open := image_open reliable;
  generate_content := generate_content reliable;
  translate := translate reliable;
  set_error := set_error reliable;
  utc_now_isoformat := utc_now_isoformat reliable;
  set_order := elements
|}.

(** The same as [reliable], with a tagging model that rejects the picture
    whose content is the single byte 0x01 and a store that refuses to delete
    [c.jpg]. *)
Definition flaky : Services := {|
  list_blobs_error := fun _ => None;
  stream_error := fun _ => None;
  delete_error := fun _ doc_id =>
    if String.eqb doc_id "c.jpg" then Some (ServiceError "deadline") else None;
  download_error := download_error reliable;
  image_open := image_open reliable;
  generate_content := fun _ img =>
    match img with
    | Decoded [Byte.x01] => Raise (ServiceError "blocked")
    | _ => Ok (Some "tree")
    end;
  translate := translate reliable;
  set_error := set_error reliable;
  utc_now_isoformat := utc_now_isoformat reliable;
  set_order := elements
|}.

(** The same as [reliable], with a tagging model that answers with white
    space and commas only. *)
Definition silent : Services := {|
  list_blobs_error := fun _ => None;
  stream_error := fun _ => None;
  delete_error := delete_error reliable;
  download_error := download_error reliable;
  image_open := image_open reliable;
  generate_content := fun _ _ => Ok (Some " , ,");
  translate := translate reliable;
  set_error := set_error reliable;
  utc_now_isoformat := utc_now_isoformat reliable;
  set_order := elements
|}.

Definition record (id : string) : Metadata :=
  mkMetadata id ("photos/" +:+ id) ["old"] ["velho"] "2024-01-01T00:00:00+00:00".

Definition cfg : Config := mkConfig "acervo" "photos/".

Definition bucket_of (objs : list (string * bytes)) : string -> gmap string bytes :=
  fun bucket_name =>
    if String.eqb bucket_name "acervo" then list_to_map objs else ∅.

(** Storage holds a.jpg and b.png, the store holds b.png and c.jpg. *)
Definition scenario : World := {|
  storage := bucket_of [("photos/a.jpg", [Byte.x01]); ("photos/b.png", [Byte.x02])];
  images := {[ "b.png" := record "b.png"; "c.jpg" := record "c.jpg" ]};
  trace := []
|}.

(** Storage and store both hold x.png. *)
Definition in_sync : World := {|
  storage := bucket_of [("photos/x.png", [Byte.x03])];
  images := {[ "x.png" := record "x.png" ]};
  trace := []
|}.

(** Two new pictures, a.jpg (rejected by the [flaky] model) and d.jpg, and
    two stale records, c.jpg and e.jpg. *)
Definition two_new : World := {|
  storage := bucket_of [("photos/a.jpg", [Byte.x01]); ("photos/d.jpg", [Byte.x04])];
  images := {[ "c.jpg" := record "c.jpg"; "e.jpg" := record "e.jpg" ]};
  trace := []
|}.

(** A listing with a folder marker, a nested picture, an upper-case
    extension and a text file. *)
Definition mixed : World := {|
  storage := bucket_of [("photos/", []); ("photos/a.jpg", []);
                        ("photos/sub/b.png", []); ("photos/c.JPG", []);
                        ("photos/notes.txt", []); ("photos/e.jpeg", []);
                        ("other/d.jpg", [])];
  images := ∅;
  trace := []
|}.

(** Two objects with the same basename in different subfolders. *)
Definition twins : World := {|
  storage := bucket_of [("photos/2023/x.jpg", [Byte.x05]);
                        ("photos/2024/x.jpg", [Byte.x06])];
  images := ∅;
  trace := []
|}.

(** The same basename directly under the prefix and in a subfolder. *)
Definition twins_top : World := {|
  storage := bucket_of [("photos/x.jpg", [Byte.x05]);
                        ("photos/2024/x.jpg", [Byte.x06])];
  images := ∅;
  trace := []
|}.

(** A prefix that does not end with a slash. *)
Definition cfg_img : Config := mkConfig "acervo" "img".

Definition no_slash : World := {|
  storage := bucket_of [("imga.jpg", [Byte.x07]); ("imgimga.jpg", [Byte.x08])];
  images := {[ "imgimga.jpg" := record "imgimga.jpg" ]};
  trace := []
|}.

(** The world the first run over [no_slash] leaves behind. *)
Definition no_slash_synced : World :=
  snd (main cfg_img reliable no_slash).

End Demo.

(** ** Start-up: the settings read from the environment (lines 23-49) *)

(** The two [ValueError]s raised while the module is loaded: the message of
    the first names GOOGLE_APPLICATION_CREDENTIALS, that of the second
    BUCKET_NAME. *)
Inductive ValueError : Type :=
| CredentialsNotDefined
| BucketNameNotDefined.

(** The module-level constants. *)
Record Settings : Type := mkSettings {
  SERVICE_ACCOUNT_FILE : string;
  run_config : Config;
  FIRESTORE_DATABASE : string;
  GEMINI_MODEL : string
}.

(** [os.getenv(key)] and [os.getenv(key, default)] over the environment as it
    is once [load_dotenv()] has run. *)
Definition getenv (environ : gmap string string) (key : string) : option string :=
  environ !! key.

Definition getenv_default (environ : gmap string string) (key default : string)
  : string :=
  match environ !! key with
  | Some value => value
  | None => default
  end.

(** Truth value of what [os.getenv] returns: [None] and the empty string are
    falsy. *)
Definition truthy_env (value : option string) : bool :=
  match value with
  | Some s => PyStr.truthy s
  | None => false
  end.

(** Lines 23-27 and 45-49. *)
Definition load_settings (environ : gmap string string) : ValueError + Settings :=
  let service_account_file := getenv environ "GOOGLE_APPLICATION_CREDENTIALS" in
  let bucket_name := getenv environ "BUCKET_NAME" in
  let bucket_folder_path := getenv_default environ "BUCKET_FOLDER_PATH" "" in
  let firestore_database :=
    getenv_default environ "FIRESTORE_DATABASE" "acervo-fotos-ia" in
  let gemini_model := getenv_default environ "GEMINI_MODEL" "gemini-1.5-flash" in
  if negb (truthy_env service_account_file) then inl CredentialsNotDefined
  else if negb (truthy_env bucket_name) then inl BucketNameNotDefined
  else inr {| SERVICE_ACCOUNT_FILE := default "" service_account_file;
              run_config := mkConfig (default "" bucket_name) bucket_folder_path;
              FIRESTORE_DATABASE := firestore_database;
              GEMINI_MODEL := gemini_model |}.

(** ** Reading the printed lines of a run *)

(** How the turn for one new picture ended, and how the turn for one stale
    record ended. *)
Inductive CreateOutcome : Type :=
| Saved (doc_id : string)
| Failed (path : string) (e : Exn).

Inductive DeleteOutcome : Type :=
| Deleted (doc_id : string)
| DeleteFailed (doc_id : string) (e : Exn).

Definition create_outcomes (evs : list Event) : list CreateOutcome :=
  omap (fun ev => match ev with
                  | Print (LogSaved k) => Some (Saved k)
                  | Print (LogProcessError p e) => Some (Failed p e)
                  | _ => None
                  end) evs.

Definition delete_outcomes (evs : list Event) : list DeleteOutcome :=
  omap (fun ev => match ev with
                  | Print (LogDeleted k) => Some (Deleted k)
                  | Print (LogDeleteError k e) => Some (DeleteFailed k e)
                  | _ => None
                  end) evs.

(** The progress lines, as (position, total, path). *)
Definition progress_lines (evs : list Event) : list (nat * nat * string) :=
  omap (fun ev => match ev with
                  | Print (LogProcessing i total p) => Some (i, total, p)
                  | _ => None
                  end) evs.

(** The counts announced before each loop. *)
Definition deleting_counts (evs : list Event) : list nat :=
  omap (fun ev => match ev with Print (LogDeleting n) => Some n | _ => None end) evs.

Definition new_counts (evs : list Event) : list nat :=
  omap (fun ev => match ev with Print (LogNewCount n) => Some n | _ => None end) evs.

(** The outcome that belongs to an identifier. *)
Definition created_as (cfg : Config) (id : string) (o : CreateOutcome) : Prop :=
  o = Saved (PyStr.basename (BUCKET_FOLDER_PATH cfg +:+ id))
  \/ exists e, o = Failed (BUCKET_FOLDER_PATH cfg +:+ id) e.

Definition deleted_as (id : string) (o : DeleteOutcome) : Prop :=
  o = Deleted id \/ exists e, o = DeleteFailed id e.

(** The count a loop announces over a set: none when the set is empty. *)
Definition announced_for (X : gset string) : list nat :=
  if decide (X = ∅) then [] else [size X].

(** The lines a run of the deletion loop over [ids] prints. *)
Record DeleteLines (ids : list string) (w w' : World) (evs : list Event) : Prop := {
  dl_trace : trace w' = trace w ++ evs;
  dl_outcomes : Forall2 deleted_as ids (delete_outcomes evs);
  dl_create_outcomes : create_outcomes evs = [];
  dl_progress : progress_lines evs = [];
  dl_new_counts : new_counts evs = [];
  dl_store : forall k,
      images w' !! k = images w !! k
      \/ (Deleted k ∈ delete_outcomes evs /\ images w' !! k = None)
}.

(** The lines and the calls of a run of the creation loop over [items]. *)
Record CreateLines (cfg : Config) (total : nat) (items : list (nat * string))
       (w w' : World) (evs : list Event) : Prop := {
  cl_trace : trace w' = trace w ++ evs;
  cl_progress :
    progress_lines evs
    = List.map (fun it : nat * string =>
                  (fst it, total, BUCKET_FOLDER_PATH cfg +:+ snd it)) items;
  cl_outcomes :
    Forall2 (created_as cfg) (List.map snd items) (create_outcomes evs);
  cl_delete_outcomes : delete_outcomes evs = [];
  cl_deleting_counts : deleting_counts evs = [];
  cl_store : forall k,
      images w' !! k = images w !! k
      \/ (Saved k ∈ create_outcomes evs /\ is_Some (images w' !! k));
  cl_generates : (length (generate_calls evs) <= length items)%nat;
  cl_translates :
    (length (translate_calls evs) <= length (generate_calls evs))%nat;
  cl_set_calls : (length (set_calls evs) <= length (generate_calls evs))%nat
}.

(** A tag as the parser leaves it: not empty, without comma, without white
    space at either end. *)
Definition well_formed_tag (tag : string) : Prop :=
  tag <> "" /\ PyStr.contains "," tag = false
  /\ PyStr.head_space tag = false /\ PyStr.last_space tag = false.

(** The collection holds every record under its own [file_id], which is the
    basename of its [file_name]. *)
Definition well_keyed (w : World) : Prop :=
  forall k md, images w !! k = Some md ->
    file_id md = k /\ file_id md = PyStr.basename (file_name md).

(** The collaborators answer for a path, whenever they are asked: the
    transport does not fail, the object exists and decodes, the model
    replies, the translator answers for the tags of the reply when there are
    any, and the store accepts the record of that path. *)
Definition answers_for (cfg : Config) (svc : Services) (w : World)
           (path : string) : Prop :=
  (forall h, download_error svc h path = None) /\
  (exists content img,
      storage w (BUCKET_NAME cfg) !! path = Some content /\
      image_open svc content = Ok img /\
      forall h, exists reply,
          generate_content svc h img = Ok reply /\
          forall h', extract_tags reply <> [] ->
                     exists ts, translate svc h' (extract_tags reply) = Ok ts) /\
  (forall h md, file_name md = path -> set_error svc h md = None).

(** The store accepts the deletion of a record, whenever it is asked. *)
Definition deletes_for (svc : Services) (id : string) : Prop :=
  forall h, delete_error svc h id = None.

(** The events of the turn of the creation loop for one identifier. *)
Record TurnOf (cfg : Config) (svc : Services) (w : World) (id : string)
       (chunk : list Event) : Prop := {
  to_downloads : download_calls chunk = [BUCKET_FOLDER_PATH cfg +:+ id];
  to_deletes : delete_calls chunk = [];
  to_picture : forall img, img ∈ generate_calls chunk ->
      exists content,
        storage w (BUCKET_NAME cfg) !! (BUCKET_FOLDER_PATH cfg +:+ id) = Some content
        /\ image_open svc content = Ok img;
  to_once : (length (generate_calls chunk) <= 1)%nat;
  to_translates :
    (length (translate_calls chunk) <= length (generate_calls chunk))%nat;
  to_sets : (length (set_calls chunk) <= length (generate_calls chunk))%nat;
  to_answered :
    answers_for cfg svc w (BUCKET_FOLDER_PATH cfg +:+ id) ->
    create_outcomes chunk
    = [Saved (PyStr.basename (BUCKET_FOLDER_PATH cfg +:+ id))]
}.

(** More concrete worlds. *)
Module Cases.

(** The bucket cannot be listed. *)
Definition bucket_down : Services := {|
  list_blobs_error := fun _ => Some (ServiceError "forbidden");
  stream_error := stream_error Demo.reliable;
  delete_error := delete_error Demo.reliable;
  download_error := download_error Demo.reliable;
  image_open := image_open Demo.reliable;
  generate_content := generate_content Demo.reliable;
  translate := translate Demo.reliable;
  set_error := set_error Demo.reliable;
  utc_now_isoformat := utc_now_isoformat Demo.reliable;
  set_order := elements
|}.

(** The store refuses every write. *)
Definition read_only_store : Services := {|
  list_blobs_error := list_blobs_error Demo.reliable;
  stream_error := stream_error Demo.reliable;
  delete_error := delete_error Demo.reliable;
  download_error := download_error Demo.reliable;
  image_open := image_open Demo.reliable;
  generate_content := generate_content Demo.reliable;
  translate := translate Demo.reliable;
  set_error := fun _ _ => Some (ServiceError "denied");
  utc_now_isoformat := utc_now_isoformat Demo.reliable;
  set_order := elements
|}.

(** A complete environment, and one that leaves the optional variables out. *)
Definition full_environ : gmap string string :=
  {[ "GOOGLE_APPLICATION_CREDENTIALS" := "key.json";
     "BUCKET_NAME" := "acervo";
     "BUCKET_FOLDER_PATH" := "photos/";
     "FIRESTORE_DATABASE" := "fotos";
     "GEMINI_MODEL" := "gemini-pro-vision" ]}.

Definition minimal_environ : gmap string string :=
  {[ "GOOGLE_APPLICATION_CREDENTIALS" := "key.json"; "BUCKET_NAME" := "acervo" ]}.

(** The world the [flaky] run over [two_new] leaves behind. *)
Definition two_new_after : World :=
  snd (main Demo.cfg Demo.flaky Demo.two_new).

End Cases.

(** * Facts about the string primitives *)

Module PyStrFacts.
Import PyStr.

Lemma append_nil_l (s : string) : "" +:+ s = s.
Proof. reflexivity. Qed.

Lemma append_cons (c : ascii) (s t : string) :
  String c s +:+ t = String c (s +:+ t).
Proof. reflexivity. Qed.

Lemma append_empty_r (s : string) : s +:+ "" = s.
Proof.
  induction s as [|c s IH]; [reflexivity |].
  now rewrite append_cons, IH.
Qed.

Lemma append_assoc (a b c : string) : (a +:+ b) +:+ c = a +:+ (b +:+ c).
Proof.
  induction a as [|x a IH]; [reflexivity |].
  now rewrite !append_cons, IH.
Qed.

Lemma length_of_append (a b : string) :
  String.length (a +:+ b) = (String.length a + String.length b)%nat.
Proof.
  induction a as [|x a IH]; [reflexivity |].
  rewrite append_cons. simpl. now rewrite IH.
Qed.

Lemma append_inv_head (p a b : string) : p +:+ a = p +:+ b -> a = b.
Proof.
  induction p as [|x p IH]; intros H; [exact H |].
  rewrite !append_cons in H. injection H as H. auto.
Qed.

Lemma contains_append (ch : ascii) (a b : string) :
  contains ch (a +:+ b) = contains ch a || contains ch b.
Proof.
  induction a as [|x a IH]; [reflexivity |].
  rewrite append_cons. simpl. rewrite IH. now rewrite orb_assoc.
Qed.

(** *** [rfind] and [basename] *)

Lemma rfind_lower (ch : ascii) (s : string) : -1 <= rfind ch s.
Proof.
  induction s as [|c s IH]; simpl; [lia |].
  destruct (0 <=? rfind ch s) eqn:E; [lia |].
  destruct (Ascii.eqb c ch); lia.
Qed.

Lemma contains_rfind (ch : ascii) (s : string) :
  contains ch s = (0 <=? rfind ch s).
Proof.
  induction s as [|c s IH]; simpl; [reflexivity |].
  rewrite IH. destruct (0 <=? rfind ch s) eqn:E.
  - rewrite orb_true_r. symmetry. apply Z.leb_le. apply Z.leb_le in E. lia.
  - rewrite orb_false_r. destruct (Ascii.eqb c ch); reflexivity.
Qed.

(** [basename] peels the string from the left: the head is dropped as long as
    a slash follows somewhere, or when it is itself the last slash. *)
Lemma basename_cons (c : ascii) (s : string) :
  basename (String c s) =
  if contains "/" s then basename s
  else if Ascii.eqb c "/" then s else String c s.
Proof.
  unfold basename, slice_from. simpl rfind.
  rewrite contains_rfind.
  pose proof (rfind_lower "/" s) as Hlo.
  destruct (0 <=? rfind "/" s) eqn:E.
  - apply Z.leb_le in E.
    replace (Z.to_nat (rfind "/" s + 1 + 1)) with (S (Z.to_nat (rfind "/" s + 1)))
      by lia.
    reflexivity.
  - destruct (Ascii.eqb c "/"); reflexivity.
Qed.

Lemma basename_no_slash (p : string) : contains "/" (basename p) = false.
Proof.
  induction p as [|c p IH]; [reflexivity |].
  rewrite basename_cons.
  destruct (contains "/" p) eqn:E; [exact IH |].
  destruct (Ascii.eqb c "/") eqn:Ec; [exact E |].
  simpl. now rewrite Ec, E.
Qed.

Lemma basename_id (s : string) : contains "/" s = false -> basename s = s.
Proof.
  destruct s as [|c s]; [reflexivity |].
  simpl. intros H. apply orb_false_iff in H as [Hc Hs].
  rewrite basename_cons, Hs, Hc. reflexivity.
Qed.

(** A segment without slash appended to a path is appended to its basename. *)
Lemma basename_append (d b : string) :
  contains "/" b = false -> basename (d +:+ b) = basename d +:+ b.
Proof.
  intros Hb. induction d as [|c d IH].
  - rewrite append_nil_l. now rewrite basename_id.
  - rewrite append_cons, !basename_cons, contains_append, Hb, orb_false_r.
    destruct (contains "/" d); [exact IH |].
    destruct (Ascii.eqb c "/"); reflexivity.
Qed.

(** The basename is what follows the directory part. *)
Lemma basename_decompose (p : string) :
  exists d, p = d +:+ basename p /\ basename d = "".
Proof.
  induction p as [|c p IH].
  - exists "". split; reflexivity.
  - rewrite basename_cons. destruct IH as (d & Hp & Hd).
    destruct (contains "/" p) eqn:E.
    + exists (String c d). split; [rewrite append_cons; congruence |].
      rewrite basename_cons, Hd.
      assert (contains "/" d = true) as ->; [| reflexivity].
      rewrite Hp, contains_append, basename_no_slash, orb_false_r in E. exact E.
    + destruct (Ascii.eqb c "/") eqn:Ec.
      * apply Ascii.eqb_eq in Ec. subst c. exists "/". split; reflexivity.
      * exists "". split; reflexivity.
Qed.

(** *** [startswith] and [endswith] *)

Lemma startswith_spec (s p : string) :
  startswith s p = true <-> exists r, s = p +:+ r.
Proof.
  revert s. induction p as [|a p IH]; intros s; simpl.
  - split; [intros _; now exists s | reflexivity].
  - destruct s as [|b s].
    + split; [discriminate | intros [r Hr]; discriminate].
    + rewrite andb_true_iff, Ascii.eqb_eq, IH. split.
      * intros [-> [r ->]]. now exists r.
      * intros [r Hr]. rewrite append_cons in Hr.
        injection Hr as -> ->. split; [reflexivity | now exists r].
Qed.

Lemma startswith_append (p r : string) : startswith (p +:+ r) p = true.
Proof. apply startswith_spec. now exists r. Qed.

Lemma endswith_unfold (s suf : string) :
  endswith s suf =
  if String.eqb s suf then true
  else match s with
       | EmptyString => false
       | String _ s' => endswith s' suf
       end.
Proof. destruct s; reflexivity. Qed.

Lemma endswith_spec (s suf : string) :
  endswith s suf = true <-> exists r, s = r +:+ suf.
Proof.
  induction s as [|c s IH]; rewrite endswith_unfold.
  - destruct (String.eqb_spec "" suf) as [<- | Hne].
    + split; [intros _; now exists "" | reflexivity].
    + split; [discriminate |].
      intros [r Hr]. destruct r; [now rewrite append_nil_l in Hr | discriminate].
  - destruct (String.eqb_spec (String c s) suf) as [<- | Hne].
    + split; [intros _; now exists "" | reflexivity].
    + rewrite IH. split.
      * intros [r ->]. now exists (String c r).
      * intros [r Hr]. destruct r as [|x r]; [now rewrite append_nil_l in Hr |].
        rewrite append_cons in Hr. injection Hr as -> ->. now exists r.
Qed.

Lemma endswith_append (p s suf : string) :
  endswith s suf = true -> endswith (p +:+ s) suf = true.
Proof.
  rewrite !endswith_spec. intros [r ->]. exists (p +:+ r).
  now rewrite append_assoc.
Qed.

Lemma endswith_any_spec (s : string) (sufs : list string) :
  endswith_any s sufs = true <-> exists suf r, In suf sufs /\ s = r +:+ suf.
Proof.
  unfold endswith_any. rewrite existsb_exists. split.
  - intros (suf & Hin & H). apply endswith_spec in H as [r ->]. now exists suf, r.
  - intros (suf & r & Hin & ->). exists suf. split; [exact Hin |].
    apply endswith_spec. now exists r.
Qed.

(** A suffix without slash survives taking the basename. *)
Lemma endswith_basename (s suf : string) :
  contains "/" suf = false ->
  endswith s suf = true -> endswith (basename s) suf = true.
Proof.
  intros Hsuf H. apply endswith_spec in H as [r ->].
  rewrite basename_append by exact Hsuf.
  apply endswith_spec. now exists (basename r).
Qed.

Lemma basename_empty_endswith (p : string) :
  p <> "" -> basename p = "" -> endswith p "/" = true.
Proof.
  induction p as [|c p IH]; [congruence |].
  intros _ H. rewrite basename_cons in H.
  destruct p as [|c' p'].
  - simpl in H. destruct (Ascii.eqb c "/") eqn:Ec; [| discriminate].
    apply Ascii.eqb_eq in Ec. now subst c.
  - rewrite endswith_unfold.
    destruct (String.eqb (String c (String c' p')) "/"); [reflexivity |].
    destruct (contains "/" (String c' p')) eqn:E.
    + apply IH; [discriminate | exact H].
    + destruct (Ascii.eqb c "/"); discriminate.
Qed.

(** A prefix is folder-like exactly when nothing follows its last slash. *)
Lemma folder_like_basename (prefix : string) :
  folder_like prefix = true <-> basename prefix = "".
Proof.
  unfold folder_like. split.
  - intros H. apply orb_true_iff in H as [H | H].
    + destruct prefix; [reflexivity | discriminate].
    + apply endswith_spec in H as [r ->].
      induction r as [|c r IH']; [reflexivity |].
      rewrite append_cons, basename_cons, contains_append.
      change (contains "/" "/") with true. rewrite orb_true_r.
      exact IH'.
  - intros H. destruct prefix as [|c p]; [reflexivity |].
    rewrite basename_empty_endswith; [apply orb_true_r | discriminate | exact H].
Qed.

(** The basename is the last segment: what precedes it is empty or ends
    with a slash, and it holds no slash itself. *)
Lemma basename_last_segment (p : string) :
  exists d, p = d +:+ basename p /\ folder_like d = true
            /\ contains "/" (basename p) = false.
Proof.
  destruct (basename_decompose p) as (d & Hp & Hd).
  exists d. split; [exact Hp |].
  split; [now apply folder_like_basename | apply basename_no_slash].
Qed.

(** *** [split] *)

Lemma split_cons (sep c : ascii) (s : string) :
  split sep (String c s) =
  if Ascii.eqb c sep then "" :: split sep s
  else match split sep s with
       | seg :: segs => String c seg :: segs
       | [] => [String c ""]
       end.
Proof. reflexivity. Qed.

Lemma split_not_nil (sep : ascii) (s : string) : split sep s <> [].
Proof.
  induction s as [|c s IH]; [discriminate |].
  rewrite split_cons. destruct (Ascii.eqb c sep); [discriminate |].
  destruct (split sep s); discriminate.
Qed.

(** Gluing the segments back with the separator restores the text. *)
Lemma join_split (sep : ascii) (s : string) :
  join (String sep "") (split sep s) = s.
Proof.
  induction s as [|c s IH]; [reflexivity |].
  rewrite split_cons.
  pose proof (split_not_nil sep s) as Hne.
  destruct (Ascii.eqb_spec c sep) as [-> | Hc].
  - destruct (split sep s) as [|seg segs] eqn:E; [congruence |].
    change (join (String sep "") ("" :: seg :: segs))
      with (String sep (join (String sep "") (seg :: segs))).
    now rewrite IH.
  - destruct (split sep s) as [|seg segs] eqn:E; [congruence |].
    destruct segs as [|seg' segs].
    + simpl in *. now subst.
    + change (join (String sep "") (String c seg :: seg' :: segs))
        with (String c (join (String sep "") (seg :: seg' :: segs))).
      now rewrite IH.
Qed.

(** No segment contains the separator. *)
Lemma split_no_sep (sep : ascii) (s : string) :
  Forall (fun seg => contains sep seg = false) (split sep s).
Proof.
  induction s as [|c s IH]; [repeat constructor |].
  rewrite split_cons.
  destruct (Ascii.eqb c sep) eqn:Ec; [constructor; [reflexivity | exact IH] |].
  destruct (split sep s) as [|seg segs]; [repeat constructor; simpl; now rewrite Ec |].
  inversion IH as [|? ? Hseg Hsegs]; subst.
  constructor; [simpl; now rewrite Ec, Hseg | exact Hsegs].
Qed.

(** *** [strip] *)

Lemma lstrip_spec (s : string) :
  exists l, s = l +:+ lstrip s /\ all_space l = true /\ head_space (lstrip s) = false.
Proof.
  induction s as [|c s (l & Hs & Hl & Hh)].
  - exists "". repeat split.
  - simpl lstrip. destruct (isspace c) eqn:Ec.
    + exists (String c l). rewrite append_cons, <- Hs. simpl. rewrite Ec, Hl. auto.
    + exists "". simpl. auto.
Qed.

Lemma rstrip_cons (c : ascii) (s : string) :
  rstrip (String c s) =
  match rstrip s with
  | EmptyString => if isspace c then "" else String c ""
  | r => String c r
  end.
Proof. reflexivity. Qed.

Lemma rstrip_spec (s : string) :
  exists r, s = rstrip s +:+ r /\ all_space r = true /\ last_space (rstrip s) = false.
Proof.
  induction s as [|c s (r & Hs & Hr & Hl)].
  - exists "". repeat split.
  - rewrite rstrip_cons. destruct (rstrip s) as [|x y] eqn:E.
    + rewrite append_nil_l in Hs. subst r. destruct (isspace c) eqn:Ec.
      * exists (String c s). simpl. rewrite Ec, Hr. auto.
      * exists s. simpl. rewrite Ec. auto.
    + exists r. rewrite append_cons, <- Hs. auto.
Qed.

Lemma rstrip_head_space (s : string) :
  head_space s = false -> head_space (rstrip s) = false.
Proof.
  destruct s as [|c s]; [reflexivity |].
  intros Hc. change (isspace c = false) in Hc. rewrite rstrip_cons.
  destruct (rstrip s); [now rewrite Hc | exact Hc].
Qed.

(** [strip] removes a run of white space at each end, and what is left
    neither starts nor ends with white space. *)
Lemma strip_spec (s : string) :
  exists l r, s = l +:+ strip s +:+ r /\ all_space l = true /\ all_space r = true
              /\ head_space (strip s) = false /\ last_space (strip s) = false.
Proof.
  unfold strip.
  destruct (lstrip_spec s) as (l & Hs & Hl & Hh).
  destruct (rstrip_spec (lstrip s)) as (r & Hs' & Hr & Hlast).
  exists l, r. rewrite <- Hs'.
  repeat split; auto using rstrip_head_space.
Qed.

Lemma strip_no_sep (sep : ascii) (s : string) :
  contains sep s = false -> contains sep (strip s) = false.
Proof.
  destruct (strip_spec s) as (l & r & Hs & _). intros H.
  rewrite Hs, !contains_append in H.
  apply orb_false_iff in H as [_ H]. now apply orb_false_iff in H as [H _].
Qed.

Lemma append_eq_self (a b : string) : a +:+ b = b -> a = "".
Proof.
  intros H. apply (f_equal String.length) in H.
  rewrite length_of_append in H. destruct a; [reflexivity | simpl in H; lia].
Qed.

(** The path rebuilt from the prefix and the basename of a listed name is
    that name exactly when nothing but a slash-free segment follows a
    folder-like prefix. *)
Lemma rebuilt_path_spec (prefix rest : string) :
  prefix +:+ basename (prefix +:+ rest) = prefix +:+ rest
  <-> contains "/" rest = false /\ folder_like prefix = true.
Proof.
  split.
  - intros H. apply append_inv_head in H.
    assert (contains "/" rest = false) as Hrest.
    { rewrite <- H. apply basename_no_slash. }
    split; [exact Hrest |].
    rewrite basename_append in H by exact Hrest.
    apply folder_like_basename. now apply append_eq_self in H.
  - intros [Hrest Hp]. apply folder_like_basename in Hp.
    now rewrite basename_append, Hp by exact Hrest.
Qed.

End PyStrFacts.

(** * The tag parser and the object lister *)

Section Lister.
Import PyStr PyStrFacts.

Lemma filter_map_swap {A B} (f : A -> B) (P : B -> bool) (l : list A) :
  List.filter P (List.map f l) = List.map f (List.filter (fun x => P (f x)) l).
Proof.
  induction l as [|x l IH]; [reflexivity |].
  simpl. destruct (P (f x)); simpl; now rewrite IH.
Qed.

Lemma extract_tags_spec (text : string) :
  extract_tags (Some text) = parse_tags_spec text.
Proof.
  unfold extract_tags, parse_tags_spec. rewrite filter_map_swap.
  destruct text; reflexivity.
Qed.

Lemma truthy_not_empty (s : string) : truthy s = true <-> s <> "".
Proof. destruct s; simpl; split; congruence. Qed.

(** Every tag the parser keeps is a trimmed, non-empty, comma-free word. *)
Lemma extract_tags_clean (text : option string) :
  Forall (fun tag => tag <> "" /\ contains "," tag = false
                     /\ head_space tag = false /\ last_space tag = false)
         (extract_tags text).
Proof.
  destruct text as [text|]; [| constructor].
  rewrite extract_tags_spec. unfold parse_tags_spec.
  apply List.Forall_forall. intros tag Hin.
  apply filter_In in Hin as [Hin Hne]. apply in_map_iff in Hin as (seg & <- & Hseg).
  pose proof (split_no_sep "," text) as Hsep.
  rewrite List.Forall_forall in Hsep. specialize (Hsep seg Hseg).
  destruct (strip_spec seg) as (l & r & _ & _ & _ & Hh & Hl).
  repeat split; auto using strip_no_sep. now apply truthy_not_empty.
Qed.

Lemma collect_images_fold (blobs : list string) (folder_path : string)
      (acc : gset string) (id : string) :
  id ∈ foldl (fun (files : gset string) (name : string) =>
                if endswith_any name IMAGE_EXTENSIONS then
                  if negb (String.eqb name folder_path) then
                    {[ basename name ]} ∪ files
                  else files
                else files) acc blobs
  <-> id ∈ acc \/
      exists name, name ∈ blobs /\ endswith_any name IMAGE_EXTENSIONS = true
                   /\ name <> folder_path /\ id = basename name.
Proof.
  set (step := fun (files : gset string) (name : string) => _).
  revert acc. induction blobs as [|b blobs IH]; intros acc.
  - simpl. split; [auto | intros [H | (name & H & _)]; [exact H | inversion H]].
  - change (foldl step acc (b :: blobs)) with (foldl step (step acc b) blobs).
    rewrite IH. clear IH. unfold step. split.
    + intros [H | (name & Hin & Hext & Hne & ->)].
      * destruct (endswith_any b IMAGE_EXTENSIONS) eqn:Hext; [| auto].
        destruct (String.eqb_spec b folder_path) as [Heq | Hne]; simpl in H; [auto |].
        apply elem_of_union in H as [H | H]; [| auto].
        apply elem_of_singleton in H. right. exists b.
        split; [left | auto].
      * right. exists name. split; [now right | auto].
    + intros [H | (name & Hin & Hext & Hne & ->)].
      * left. destruct (endswith_any b IMAGE_EXTENSIONS); [| exact H].
        destruct (negb (String.eqb b folder_path)); [| exact H].
        apply elem_of_union. now right.
      * apply elem_of_cons in Hin as [-> | Hin].
        -- left. rewrite Hext.
           destruct (String.eqb_spec b folder_path) as [Heq | _]; [contradiction |].
           simpl. apply elem_of_union. left. now apply elem_of_singleton.
        -- right. exists name. auto.
Qed.

(** The lister's loop keeps the basename of every listed name that carries
    an image extension and differs from the prefix, and nothing else. *)
Lemma collect_images_spec (blobs : list string) (folder_path id : string) :
  id ∈ collect_images blobs folder_path
  <-> exists name, name ∈ blobs /\ endswith_any name IMAGE_EXTENSIONS = true
                   /\ name <> folder_path /\ id = basename name.
Proof.
  unfold collect_images. rewrite collect_images_fold. split.
  - intros [H | H]; [now apply not_elem_of_empty in H | exact H].
  - auto.
Qed.

Lemma blobs_under_spec (objs : gmap string bytes) (prefix name : string) :
  name ∈ blobs_under objs prefix
  <-> is_Some (objs !! name) /\ startswith name prefix = true.
Proof.
  unfold blobs_under. rewrite list_elem_of_In, filter_In, <- list_elem_of_In.
  rewrite elem_of_elements, elem_of_dom. reflexivity.
Qed.

Lemma image_extension_spec (name : string) :
  endswith_any name IMAGE_EXTENSIONS = true
  <-> exists stem, name = stem +:+ ".jpg" \/ name = stem +:+ ".jpeg"
                   \/ name = stem +:+ ".png".
Proof.
  rewrite endswith_any_spec. split.
  - intros (suf & r & Hin & ->). exists r. simpl in Hin.
    destruct Hin as [<- | [<- | [<- | []]]]; auto.
  - intros (stem & [-> | [-> | ->]]); eexists _, stem; (split; [| reflexivity]);
      simpl; auto.
Qed.

(** Identifiers are never empty and never contain a slash. *)
Lemma collect_images_ids (blobs : list string) (folder_path id : string) :
  id ∈ collect_images blobs folder_path ->
  contains "/" id = false /\ endswith_any id IMAGE_EXTENSIONS = true /\ id <> "".
Proof.
  rewrite collect_images_spec. intros (name & _ & Hext & _ & ->).
  split; [apply basename_no_slash |].
  assert (endswith_any (basename name) IMAGE_EXTENSIONS = true) as Hb.
  { unfold endswith_any in *. apply existsb_exists in Hext as (suf & Hin & Hsuf).
    apply existsb_exists. exists suf. split; [exact Hin |].
    apply endswith_basename; [| exact Hsuf].
    simpl in Hin. destruct Hin as [<- | [<- | [<- | []]]]; reflexivity. }
  split; [exact Hb |]. intros Heq. rewrite Heq in Hb. discriminate.
Qed.

End Lister.

(** C7. Tag parsing: the tags are obtained by splitting the reply on commas,
    trimming white space from each segment and dropping the segments that are
    empty after trimming; no reply, or an empty one, gives no tags; the reply
    "cat, dog, outdoor," gives cat, dog, outdoor.  Splitting is exact (gluing
    the segments with commas restores the text and no segment holds a comma),
    trimming removes exactly a run of white space at each end, and every tag
    kept is non-empty, comma-free and trimmed. *)
Theorem extract_tags_parses :
  (forall text, extract_tags (Some text) = parse_tags_spec text) /\
  extract_tags None = [] /\
  extract_tags (Some "") = [] /\
  extract_tags (Some "cat, dog, outdoor,") = ["cat"; "dog"; "outdoor"] /\
  (forall text,
      PyStr.join "," (PyStr.split "," text) = text /\
      Forall (fun seg => PyStr.contains "," seg = false) (PyStr.split "," text)) /\
  (forall seg, exists l r,
      seg = l +:+ PyStr.strip seg +:+ r /\
      PyStr.all_space l = true /\ PyStr.all_space r = true /\
      PyStr.head_space (PyStr.strip seg) = false /\
      PyStr.last_space (PyStr.strip seg) = false) /\
  (forall text,
      Forall (fun tag => tag <> "" /\ PyStr.contains "," tag = false
                         /\ PyStr.head_space tag = false
                         /\ PyStr.last_space tag = false)
             (extract_tags text)).
Proof.
  split; [exact extract_tags_spec |].
  do 3 (split; [reflexivity |]).
  split; [intros text; split;
          [apply PyStrFacts.join_split | apply PyStrFacts.split_no_sep] |].
  split; [exact PyStrFacts.strip_spec | exact extract_tags_clean].
Qed.

Example basename_nested : PyStr.basename "photos/sub/a.jpg" = "a.jpg".
Proof. reflexivity. Qed.

Example basename_plain : PyStr.basename "a.jpg" = "a.jpg".
Proof. reflexivity. Qed.

Example basename_folder : PyStr.basename "photos/" = "".
Proof. reflexivity. Qed.

Example split_trailing :
  PyStr.split ","%char "cat, dog, outdoor," = ["cat"; " dog"; " outdoor"; ""].
Proof. reflexivity. Qed.

Example strip_both : PyStr.strip "  a b  " = "a b".
Proof. reflexivity. Qed.

(** * Running the script *)

Section Runs.
Import PyStr PyStrFacts.
Context (cfg : Config) (svc : Services).

Local Abbreviation prefix := (BUCKET_FOLDER_PATH cfg).
Local Abbreviation bucket := (BUCKET_NAME cfg).

Ltac unfold_script :=
  unfold save_metadata_to_firestore, get_image_metadata, download_as_bytes,
    lift_result, gemini_generate, translate_tags, translate_batch,
    now_isoformat, document_set, document_delete, stream_doc_ids,
    list_images_in_bucket, list_blobs, try_except, bind, ret, raise, print,
    emit.

Ltac run_cases :=
  unfold_script; simpl; repeat case_match; simplify_eq /=;
  rewrite <- ?app_assoc; simpl.

Lemma get_image_metadata_run (path : string) (w : World) :
  exists evs,
    snd (get_image_metadata cfg svc path w)
      = mkWorld (storage w) (images w) (trace w ++ evs) /\
    download_calls evs = [path] /\ delete_calls evs = [] /\ set_calls evs = [] /\
    match fst (get_image_metadata cfg svc path w) with
    | Ok md =>
        file_id md = basename path /\ file_name md = path /\
        is_Some (storage w bucket !! path) /\ printed evs = []
    | Raise _ => True
    end.
Proof.
  run_cases; (eexists; split; [reflexivity | repeat split; eauto]).
Qed.

Ltac give_events :=
  match goal with
  | |- exists evs w', (_, mkWorld _ _ (trace _ ++ ?l)) = _ /\ _ =>
      exists l; eexists; split; [reflexivity |]
  end.

(** One turn of the deletion loop never raises. *)
Lemma delete_one_run (id : string) (w : World) :
  exists evs w', delete_one svc id w = (Ok tt, w') /\ DeletePost [id] w w' evs.
Proof.
  unfold delete_one. run_cases; give_events; split; simpl; try reflexivity.
  - intros k. destruct (decide (k = id)) as [-> | Hne].
    + right. split; [apply list_elem_of_here | apply lookup_delete_eq].
    + left. now apply lookup_delete_ne.
  - intros id' Hin. apply list_elem_of_singleton in Hin as ->.
    right. apply lookup_delete_eq.
  - auto.
  - intros id' Hin. apply list_elem_of_singleton in Hin as ->.
    left. eexists. apply list_elem_of_further, list_elem_of_here.
Qed.

Lemma calls_app (evs1 evs2 : list Event) :
  delete_calls (evs1 ++ evs2) = delete_calls evs1 ++ delete_calls evs2 /\
  download_calls (evs1 ++ evs2) = download_calls evs1 ++ download_calls evs2 /\
  set_calls (evs1 ++ evs2) = set_calls evs1 ++ set_calls evs2 /\
  generate_calls (evs1 ++ evs2) = generate_calls evs1 ++ generate_calls evs2 /\
  translate_calls (evs1 ++ evs2) = translate_calls evs1 ++ translate_calls evs2 /\
  printed (evs1 ++ evs2) = printed evs1 ++ printed evs2.
Proof. repeat split; apply omap_app. Qed.

Ltac split_calls :=
  repeat match goal with
    | |- context [delete_calls (?a ++ ?b)] =>
        rewrite (proj1 (calls_app a b))
    | |- context [download_calls (?a ++ ?b)] =>
        rewrite (proj1 (proj2 (calls_app a b)))
    | |- context [set_calls (?a ++ ?b)] =>
        rewrite (proj1 (proj2 (proj2 (calls_app a b))))
    | |- context [generate_calls (?a ++ ?b)] =>
        rewrite (proj1 (proj2 (proj2 (proj2 (calls_app a b)))))
    | |- context [translate_calls (?a ++ ?b)] =>
        rewrite (proj1 (proj2 (proj2 (proj2 (proj2 (calls_app a b))))))
    | H : context [set_calls (?a ++ ?b)] |- _ =>
        rewrite (proj1 (proj2 (proj2 (calls_app a b)))) in H
    end.

(** One turn of the creation loop never raises. *)
Lemma process_one_run (total i : nat) (id : string) (w : World) :
  exists evs w',
    process_one cfg svc total (i, id) w = (Ok tt, w') /\
    CreatePost cfg [id] w w' evs.
Proof.
  set (path := prefix +:+ id).
  set (line := Print (LogProcessing i total path)).
  set (w0 := mkWorld (storage w) (images w) (trace w ++ [line])).
  destruct (get_image_metadata_run path w0)
    as (evs0 & Hw & Hdl & Hdel & Hset & Hok).
  assert (process_one cfg svc total (i, id) w =
          try_except
            (let* metadata := get_image_metadata cfg svc path in
             save_metadata_to_firestore svc metadata)
            (fun e => print (LogProcessError path e)) w0) as -> by reflexivity.
  unfold try_except, bind.
  destruct (get_image_metadata cfg svc path w0) as [[md | e] w1];
    simpl in Hw, Hok; subst w1.
  - destruct Hok as (Hid & Hname & Hobj & _).
    unfold save_metadata_to_firestore, document_set, bind, print, emit. simpl.
    destruct (set_error svc _ md) as [e |].
    + exists (line :: evs0 ++ [CallSet (file_id md) md;
                              Print (LogProcessError path e)]); eexists.
      split; [reflexivity |].
      split; simpl; rewrite <- ?app_assoc; try reflexivity; split_calls;
        rewrite ?Hdl, ?Hdel, ?Hset; simpl; try reflexivity.
      * intros k md' Hin. apply list_elem_of_singleton in Hin.
        injection Hin as -> ->. exists id. split; [left | auto].
      * auto.
      * intros id' Hin. apply list_elem_of_singleton in Hin as ->.
        left. exists e. right. apply elem_of_app. right. right. left.
    + exists (line :: evs0 ++ [CallSet (file_id md) md;
                              Print (LogSaved (file_id md))]); eexists.
      split; [reflexivity |].
      split; simpl; rewrite <- ?app_assoc; try reflexivity; split_calls;
        rewrite ?Hdl, ?Hdel, ?Hset; simpl; try reflexivity.
      * intros k md' Hin. apply list_elem_of_singleton in Hin.
        injection Hin as -> ->. exists id. split; [left | auto].
      * intros k. destruct (decide (k = file_id md)) as [-> | Hne].
        -- right. exists md. split; [left | apply lookup_insert_eq].
        -- left. now apply lookup_insert_ne.
      * intros id' Hin. apply list_elem_of_singleton in Hin as ->.
        right. exists md. fold path. rewrite <- Hid.
        split; [apply lookup_insert_eq |]. split; [exact Hname |].
        right. apply elem_of_app. right. right. left.
  - unfold print, emit. simpl.
    exists (line :: evs0 ++ [Print (LogProcessError path e)]); eexists.
    split; [reflexivity |].
    split; simpl; rewrite <- ?app_assoc; try reflexivity; split_calls;
      rewrite ?Hdl, ?Hdel, ?Hset; simpl; try reflexivity.
    + intros k md' Hin. inversion Hin.
    + auto.
    + intros id' Hin. apply list_elem_of_singleton in Hin as ->.
      left. exists e. right. apply elem_of_app. right. left.
Qed.

(** Printing changes nothing but the trace. *)
Lemma print_delete_post (line : LogLine) (w : World) :
  DeletePost [] w (snd (print line w)) [Print line].
Proof.
  split; simpl; try reflexivity; [auto |]. intros id Hin. inversion Hin.
Qed.

Lemma print_create_post (line : LogLine) (w : World) :
  CreatePost cfg [] w (snd (print line w)) [Print line].
Proof.
  split; simpl; try reflexivity; [| auto |]; intros ? Hin; try inversion Hin.
  intros Hin'. inversion Hin'.
Qed.

(** Two stretches of deletions in a row. *)
Lemma delete_post_app (l1 l2 : list string) (w w1 w2 : World)
      (evs1 evs2 : list Event) :
  DeletePost l1 w w1 evs1 -> DeletePost l2 w1 w2 evs2 ->
  DeletePost (l1 ++ l2) w w2 (evs1 ++ evs2).
Proof.
  intros [S1 T1 D1 L1 C1 G1 R1 F1 P1] [S2 T2 D2 L2 C2 G2 R2 F2 P2].
  split; split_calls; try congruence.
  - now rewrite T2, T1, app_assoc.
  - now rewrite L1, L2.
  - now rewrite C1, C2.
  - now rewrite G1, G2.
  - now rewrite R1, R2.
  - intros k. destruct (F2 k) as [E2 | [Hin2 N2]].
    + destruct (F1 k) as [E1 | [Hin1 N1]]; [left; congruence |].
      right. split; [apply elem_of_app; auto | congruence].
    + right. split; [apply elem_of_app; auto | exact N2].
  - intros id Hin. apply elem_of_app in Hin as [Hin | Hin].
    + destruct (P1 id Hin) as [[e He] | N1].
      * left. exists e. apply elem_of_app. auto.
      * right. destruct (F2 id) as [E2 | [_ N2]]; congruence.
    + destruct (P2 id Hin) as [[e He] | N2]; [left | right; exact N2].
      exists e. apply elem_of_app. auto.
Qed.

(** Distinct slash-free identifiers are stored under distinct keys. *)
Lemma key_inj (a b : string) :
  contains "/" a = false -> contains "/" b = false ->
  basename (prefix +:+ a) = basename (prefix +:+ b) -> a = b.
Proof.
  intros Ha Hb. rewrite !basename_append by assumption. apply append_inv_head.
Qed.

(** Two stretches of creations in a row. *)
Lemma create_post_app (l1 l2 : list string) (w w1 w2 : World)
      (evs1 evs2 : list Event) :
  (forall id, id ∈ l1 ++ l2 -> contains "/" id = false) ->
  CreatePost cfg l1 w w1 evs1 -> CreatePost cfg l2 w1 w2 evs2 ->
  CreatePost cfg (l1 ++ l2) w w2 (evs1 ++ evs2).
Proof.
  intros Hslash [S1 T1 L1 D1 C1 F1 P1] [S2 T2 L2 D2 C2 F2 P2].
  assert (forall k md, (k, md) ∈ set_calls (evs1 ++ evs2) ->
            exists id, id ∈ l1 ++ l2 /\ k = basename (prefix +:+ id)
                       /\ file_name md = prefix +:+ id /\ file_id md = k
                       /\ is_Some (storage w bucket !! (prefix +:+ id))) as C.
  { intros k md Hin. split_calls. apply elem_of_app in Hin as [Hin | Hin].
    - destruct (C1 k md Hin) as (id & Hid & H). exists id.
      split; [apply elem_of_app; auto | exact H].
    - destruct (C2 k md Hin) as (id & Hid & H). exists id.
      rewrite S1 in H. split; [apply elem_of_app; auto | exact H]. }
  split; split_calls; try congruence.
  - now rewrite T2, T1, app_assoc.
  - now rewrite L1, L2, map_app.
  - now rewrite D1, D2.
  - exact C.
  - intros k. destruct (F2 k) as [E2 | (md & Hin2 & K2)].
    + destruct (F1 k) as [E1 | (md & Hin1 & K1)]; [left; congruence |].
      right. exists md. split; [apply elem_of_app; auto | congruence].
    + right. exists md. split; [apply elem_of_app; auto | exact K2].
  - intros id Hin. apply elem_of_app in Hin as [Hin | Hin].
    + destruct (P1 id Hin) as [[e He] | (md & K1 & N1 & Hs)].
      * left. exists e. apply elem_of_app. auto.
      * right. destruct (F2 (basename (prefix +:+ id))) as [E2 | (md' & Hin2 & K2)].
        -- exists md. split; [congruence |]. split; [exact N1 |].
           apply elem_of_app. auto.
        -- exists md'. split; [exact K2 |].
           destruct (C2 _ _ Hin2) as (id' & Hid' & Hk & Hn & _).
           apply key_inj in Hk;
             [| apply Hslash, elem_of_app; auto ..].
           split; [congruence |]. apply elem_of_app. auto.
    + destruct (P2 id Hin) as [[e He] | (md & K2 & N2 & Hs)].
      * left. exists e. apply elem_of_app. auto.
      * right. exists md. split; [exact K2 |]. split; [exact N2 |].
        apply elem_of_app. auto.
Qed.

Lemma for_each_cons {A} (x : A) (xs : list A) (body : A -> M unit) (w w1 : World) :
  body x w = (Ok tt, w1) -> for_each (x :: xs) body w = for_each xs body w1.
Proof. intros H. simpl. unfold bind. now rewrite H. Qed.

(** The deletion loop visits every identifier and never raises. *)
Lemma delete_loop_run (ids : list string) (w : World) :
  exists evs w',
    for_each ids (delete_one svc) w = (Ok tt, w') /\ DeletePost ids w w' evs.
Proof.
  revert w. induction ids as [|id ids IH]; intros w.
  - exists [], w. split; [reflexivity |].
    split; simpl; rewrite ?app_nil_r; try reflexivity; [auto |].
    intros id Hin. inversion Hin.
  - destruct (delete_one_run id w) as (evs1 & w1 & Hrun & Hpost).
    destruct (IH w1) as (evs2 & w2 & Hrest & Hpost2).
    exists (evs1 ++ evs2), w2. rewrite (for_each_cons _ _ _ _ _ Hrun).
    split; [exact Hrest |].
    exact (delete_post_app [id] ids _ _ _ _ _ Hpost Hpost2).
Qed.

(** The creation loop visits every identifier and never raises. *)
Lemma process_loop_run (total : nat) (ids : list string) (start : nat) (w : World) :
  (forall id, id ∈ ids -> contains "/" id = false) ->
  exists evs w',
    for_each (enumerate ids start) (process_one cfg svc total) w = (Ok tt, w')
    /\ CreatePost cfg ids w w' evs.
Proof.
  revert start w. induction ids as [|id ids IH]; intros start w Hslash.
  - exists [], w. split; [reflexivity |].
    split; simpl; rewrite ?app_nil_r; try reflexivity; [| auto |];
      intros ? Hin; try inversion Hin.
    intros Hin'. inversion Hin'.
  - destruct (process_one_run total start id w) as (evs1 & w1 & Hrun & Hpost).
    destruct (IH (S start) w1) as (evs2 & w2 & Hrest & Hpost2).
    { intros id' Hin. apply Hslash. now right. }
    exists (evs1 ++ evs2), w2. simpl enumerate.
    rewrite (for_each_cons _ _ _ _ _ Hrun).
    split; [exact Hrest |].
    exact (create_post_app [id] ids _ _ _ _ _ Hslash Hpost Hpost2).
Qed.

(** [main] when the bucket listing fails: the exception escapes. *)
Lemma main_listing_fails (w : World) (e : Exn) :
  list_blobs_error svc (listing_history w) = Some e ->
  main cfg svc w
  = (Raise e, after w [Print LogStart; CallListBlobs bucket prefix]).
Proof.
  unfold listing_history. intros Hl.
  unfold main. unfold_script. simpl. rewrite Hl.
  unfold after. now rewrite <- app_assoc.
Qed.

(** [main] when the store listing fails: one line is printed and it returns. *)
Lemma main_stream_fails (w : World) (e : Exn) :
  list_blobs_error svc (listing_history w) = None ->
  stream_error svc (stream_history cfg w) = Some e ->
  main cfg svc w
  = (Ok tt, after w [Print LogStart; CallListBlobs bucket prefix;
                     CallStream; Print (LogFirestoreError e)]).
Proof.
  unfold listing_history, stream_history. intros Hl Hs.
  unfold main. unfold_script. simpl. rewrite Hl. rewrite <- !app_assoc. simpl.
  rewrite Hs. unfold after. simpl. now rewrite <- !app_assoc.
Qed.

(** [main] when both listings succeed. *)
Lemma main_reaches_reconcile (w : World) :
  list_blobs_error svc (listing_history w) = None ->
  stream_error svc (stream_history cfg w) = None ->
  main cfg svc w
  = reconcile cfg svc (present_ids cfg w) (stored_ids w) (at_reconcile cfg w).
Proof.
  unfold listing_history, stream_history. intros Hl Hs.
  unfold main. unfold_script. simpl. rewrite Hl. rewrite <- !app_assoc. simpl.
  rewrite Hs. unfold at_reconcile, after. simpl. now rewrite <- ?app_assoc.
Qed.

Hypothesis Hiter : iterates_sets svc.

Lemma set_order_elem (X : gset string) (id : string) :
  id ∈ set_order svc X <-> id ∈ X.
Proof. now rewrite (Hiter X), elem_of_elements. Qed.

Lemma delete_removed_run (X : gset string) (w : World) :
  exists evs w',
    delete_removed svc X w = (Ok tt, w') /\
    DeletePost (set_order svc X) w w' evs.
Proof.
  unfold delete_removed. destruct (decide (X = ∅)) as [-> | Hne].
  - assert (set_order svc ∅ = []) as ->.
    { apply Permutation_nil_r. rewrite (Hiter ∅). now rewrite elements_empty. }
    exists [Print LogNoneRemoved]. eexists. split; [reflexivity |].
    apply print_delete_post.
  - set (w0 := snd (print (LogDeleting (size X)) w)).
    destruct (delete_loop_run (set_order svc X) w0) as (evs & w' & Hrun & Hpost).
    exists ([Print (LogDeleting (size X))] ++ evs), w'. split; [exact Hrun |].
    exact (delete_post_app [] _ _ _ _ _ _ (print_delete_post _ w) Hpost).
Qed.

Lemma process_new_run (X : gset string) (w : World) :
  (forall id, id ∈ X -> contains "/" id = false) ->
  exists evs w',
    process_new cfg svc X w = (Ok tt, w') /\
    CreatePost cfg (set_order svc X) w w' evs.
Proof.
  intros Hslash. unfold process_new. destruct (decide (X = ∅)) as [-> | Hne].
  - assert (set_order svc ∅ = []) as ->.
    { apply Permutation_nil_r. rewrite (Hiter ∅). now rewrite elements_empty. }
    exists [Print LogNoneNew]. eexists. split; [reflexivity |].
    apply print_create_post.
  - set (w0 := snd (print (LogNewCount (size X)) w)).
    set (w1 := snd (print LogProcessingStart w0)).
    assert (forall id, id ∈ set_order svc X -> contains "/" id = false) as Hs.
    { intros id Hin. apply Hslash. now apply set_order_elem. }
    destruct (process_loop_run (size X) (set_order svc X) 1 w1 Hs)
      as (evs & w' & Hrun & Hpost).
    exists ([Print (LogNewCount (size X))] ++ [Print LogProcessingStart] ++ evs), w'.
    split; [exact Hrun |].
    apply (create_post_app [] _ w w0 w'); [exact Hs | apply print_create_post |].
    apply (create_post_app [] _ w0 w1 w'); [exact Hs | apply print_create_post |].
    exact Hpost.
Qed.

(** A key saved for an identifier of the bucket is itself an identifier of
    the bucket: the object fetched under it exists. *)
Lemma saved_key_present (w : World) (id : string) :
  id ∈ present_ids cfg w ->
  is_Some (storage w bucket !! (prefix +:+ id)) ->
  basename (prefix +:+ id) ∈ present_ids cfg w.
Proof.
  intros Hid Hobj. unfold present_ids in *.
  apply collect_images_ids in Hid as (_ & Hext & Hne).
  apply collect_images_spec. exists (prefix +:+ id).
  split; [apply blobs_under_spec; split; [exact Hobj | apply startswith_append] |].
  split; [| split; [| reflexivity]].
  - unfold endswith_any in *. apply existsb_exists in Hext as (suf & Hin & Hsuf).
    apply existsb_exists. exists suf. split; [exact Hin |].
    now apply endswith_append.
  - intros Heq. apply Hne. apply (append_inv_head prefix).
    now rewrite append_empty_r.
Qed.

Lemma last_of_snoc (evs : list Event) (ev : Event) : last (evs ++ [ev]) = Some ev.
Proof. induction evs as [|x [|y evs] IH]; simpl in *; auto. Qed.

(** The whole of lines 139-168. *)
Lemma reconcile_run (stored : gset string) (w : World) :
  exists evs w',
    reconcile cfg svc (present_ids cfg w) stored w = (Ok tt, w') /\
    Reconciled cfg (present_ids cfg w) stored w w' evs.
Proof.
  set (present := present_ids cfg w).
  assert (forall id, id ∈ present -> contains "/" id = false) as Hslash.
  { intros id Hin. now apply collect_images_ids in Hin as (? & _). }
  destruct (delete_removed_run (stored ∖ present) w)
    as (evs1 & w1 & Hrun1 & [S1 T1 D1 L1 C1 _ _ F1 P1]).
  destruct (process_new_run (present ∖ stored) w1)
    as (evs2 & w2 & Hrun2 & [S2 T2 L2 D2 C2 F2 P2]).
  { intros id Hin. apply Hslash. now apply elem_of_difference in Hin as [Hin _]. }
  exists (evs1 ++ evs2 ++ [Print LogDone]). eexists.
  split; [unfold reconcile, bind; fold present; rewrite Hrun1, Hrun2; reflexivity |].
  assert (forall k md, (k, md) ∈ set_calls (evs1 ++ evs2 ++ [Print LogDone]) ->
            (k, md) ∈ set_calls evs2) as Hsets.
  { intros k md Hin. split_calls. rewrite C1 in Hin. simpl in Hin.
    now rewrite app_nil_r in Hin. }
  assert (forall k md, (k, md) ∈ set_calls evs2 ->
            (k, md) ∈ set_calls (evs1 ++ evs2 ++ [Print LogDone])) as Hsets'.
  { intros k md Hin. split_calls. rewrite C1. simpl. now rewrite app_nil_r. }
  assert (forall k md, (k, md) ∈ set_calls evs2 ->
            exists id, id ∈ present ∖ stored /\ k = basename (prefix +:+ id)
                       /\ file_name md = prefix +:+ id /\ file_id md = k
                       /\ is_Some (storage w bucket !! (prefix +:+ id))) as C.
  { intros k md Hin. destruct (C2 k md Hin) as (id & Hid & H).
    exists id. rewrite S1 in H. split; [now apply set_order_elem | exact H]. }
  split; simpl.
  - congruence.
  - now rewrite T2, T1, <- !app_assoc.
  - split_calls. rewrite D1, D2. simpl. rewrite app_nil_r. apply Hiter.
  - split_calls. rewrite L1, L2. simpl. rewrite app_nil_r.
    now rewrite (Hiter (present ∖ stored)).
  - intros k md Hin. auto.
  - intros k. destruct (F2 k) as [E2 | (md & Hin2 & K2)].
    + destruct (F1 k) as [E1 | [Hin1 N1]]; [left; congruence |].
      right. left. split; [now apply set_order_elem | congruence].
    + right. right. exists md. auto.
  - intros id Hin. destruct (P1 id) as [[e He] | N1]; [now apply set_order_elem | |].
    + left. exists e. apply elem_of_app. auto.
    + destruct (F2 id) as [E2 | (md & Hin2 & K2)]; [right; congruence |].
      exfalso. destruct (C _ _ Hin2) as (id' & Hid' & -> & _ & _ & Hobj).
      assert (basename (prefix +:+ id') ∈ present) as Hp.
      { apply saved_key_present; [| exact Hobj].
        now apply elem_of_difference in Hid' as [Hid' _]. }
      now apply elem_of_difference in Hin as [_ Hin].
  - intros id Hin. destruct (P2 id) as [[e He] | (md & K2 & N2 & Hs)];
      [now apply set_order_elem | |].
    + left. exists e. apply elem_of_app. right. apply elem_of_app. auto.
    + right. exists md. split; [exact K2 |]. split; [exact N2 |].
      apply elem_of_app. right. apply elem_of_app. auto.
  - rewrite app_assoc. apply last_of_snoc.
Qed.

(** When both listings succeed, [main] reconciles and returns normally. *)
Lemma main_reconciled (w : World) :
  list_blobs_error svc (listing_history w) = None ->
  stream_error svc (stream_history cfg w) = None ->
  exists w' evs,
    main cfg svc w = (Ok tt, w') /\
    Reconciled cfg (present_ids cfg w) (stored_ids w) w w' evs.
Proof.
  intros Hl Hs.
  destruct (reconcile_run (stored_ids w) (at_reconcile cfg w))
    as (evs & w' & Hrun & [S T D L C F Pd Pc Hlast]).
  exists w', ([Print LogStart; CallListBlobs bucket prefix; CallStream] ++ evs).
  split; [now rewrite main_reaches_reconcile |].
  change (present_ids cfg (at_reconcile cfg w)) with (present_ids cfg w) in *.
  split; try assumption.
  - rewrite T. unfold at_reconcile, after. simpl. now rewrite <- app_assoc.
  - intros id Hin. destruct (Pd id Hin) as [[e He] | N]; [left | now right].
    exists e. apply elem_of_app. now right.
  - intros id Hin. destruct (Pc id Hin) as [[e He] | (md & K & N & Hsv)].
    + left. exists e. apply elem_of_app. now right.
    + right. exists md. repeat split; try assumption. apply elem_of_app. now right.
  - destruct evs as [|ev evs]; [discriminate |]. exact Hlast.
Qed.

(** The three ways [main] can go. *)
Lemma main_outcome (w : World) :
  (exists e,
      list_blobs_error svc (listing_history w) = Some e /\
      main cfg svc w
      = (Raise e, after w [Print LogStart; CallListBlobs bucket prefix]))
  \/ (exists e,
      list_blobs_error svc (listing_history w) = None /\
      stream_error svc (stream_history cfg w) = Some e /\
      main cfg svc w
      = (Ok tt, after w [Print LogStart; CallListBlobs bucket prefix;
                         CallStream; Print (LogFirestoreError e)]))
  \/ (list_blobs_error svc (listing_history w) = None /\
      stream_error svc (stream_history cfg w) = None /\
      exists w' evs,
        main cfg svc w = (Ok tt, w') /\
        Reconciled cfg (present_ids cfg w) (stored_ids w) w w' evs).
Proof.
  destruct (list_blobs_error svc (listing_history w)) as [e |] eqn:Hl.
  { left. exists e. split; [reflexivity |]. now apply main_listing_fails. }
  right.
  destruct (stream_error svc (stream_history cfg w)) as [e |] eqn:Hs.
  { left. exists e. do 2 (split; [reflexivity |]). now apply main_stream_fails. }
  right. do 2 (split; [reflexivity |]). now apply main_reconciled.
Qed.

Lemma clean_spec (evs : list Event) (l : LogLine) :
  clean evs -> Print l ∈ evs -> is_error_line l = false.
Proof.
  unfold clean. rewrite List.Forall_forall. intros H Hin. apply H.
  apply list_elem_of_In, list_elem_of_omap. now exists (Print l).
Qed.

(** Under a folder-like prefix an identifier is its own key. *)
Lemma key_of_folder_like (id : string) :
  folder_like prefix = true -> contains "/" id = false ->
  basename (prefix +:+ id) = id.
Proof.
  intros Hp Hid. apply folder_like_basename in Hp.
  now rewrite basename_append, Hp by exact Hid.
Qed.

Lemma present_no_slash (w : World) (id : string) :
  id ∈ present_ids cfg w -> contains "/" id = false.
Proof. intros Hin. now apply collect_images_ids in Hin as (? & _). Qed.

(** With identical identifier sets [reconcile] only prints. *)
Lemma reconcile_in_sync (X : gset string) (w : World) :
  reconcile cfg svc X X w
  = (Ok tt, after w [Print LogNoneRemoved; Print LogNoneNew; Print LogDone]).
Proof.
  unfold reconcile, delete_removed, process_new.
  rewrite difference_diag_L. destruct (decide ((∅ : gset string) = ∅)); [| congruence].
  unfold bind, print, emit, after. simpl. now rewrite <- !app_assoc.
Qed.

(** A run that returns normally without reporting any failure leaves the
    store holding exactly the identifiers of the bucket, provided the prefix
    is folder-like. *)
Lemma clean_run_in_sync (w w' : World) (evs : list Event) :
  folder_like prefix = true ->
  main cfg svc w = (Ok tt, w') ->
  trace w' = trace w ++ evs ->
  clean evs ->
  storage w' = storage w /\ stored_ids w' = present_ids cfg w.
Proof.
  intros Hp Hmain Htr Hclean.
  destruct (main_outcome w)
    as [(e & _ & Hrun) | [(e & _ & _ & Hrun) | (_ & _ & w2 & evs2 & Hrun & R)]];
    rewrite Hrun in Hmain; [discriminate | |].
  - injection Hmain as <-. unfold after in Htr. simpl in Htr.
    apply app_inv_head in Htr. subst evs.
    assert (is_error_line (LogFirestoreError e) = false) as H; [| discriminate].
    apply (clean_spec _ _ Hclean). do 3 right. left.
  - injection Hmain as <-.
    destruct R as [S T _ _ C F Pd Pc _].
    rewrite T in Htr. apply app_inv_head in Htr. subst evs2.
    split; [exact S |].
    assert (forall id e, Print (LogDeleteError id e) ∈ evs -> False) as Hnd.
    { intros id e Hin. now apply (clean_spec _ _ Hclean) in Hin. }
    assert (forall p e, Print (LogProcessError p e) ∈ evs -> False) as Hnp.
    { intros p e Hin. now apply (clean_spec _ _ Hclean) in Hin. }
    apply set_eq. intros k. unfold stored_ids in *. rewrite elem_of_dom. split.
    + intros Hk. destruct (F k) as [E | [[Hin N] | (md & Hin & K)]].
      * destruct (decide (k ∈ present_ids cfg w)) as [Hy | Hn]; [exact Hy |].
        exfalso. rewrite E in Hk. apply elem_of_dom in Hk.
        destruct (Pd k) as [[e He] | N];
          [now apply elem_of_difference | eauto |].
        rewrite N in E. apply elem_of_dom in Hk as [? Hk]. congruence.
      * rewrite N in Hk. now destruct Hk.
      * destruct (C k md Hin) as (id & Hid & -> & _).
        apply elem_of_difference in Hid as [Hid _].
        rewrite key_of_folder_like; eauto using present_no_slash.
    + intros Hk. destruct (decide (k ∈ dom (images w))) as [Hy | Hn].
      * destruct (F k) as [E | [[Hin N] | (md & Hin & K)]].
        -- rewrite E. now apply elem_of_dom.
        -- now apply elem_of_difference in Hin as [_ Hin].
        -- rewrite K. eauto.
      * destruct (Pc k) as [[e He] | (md & K & _)];
          [now apply elem_of_difference | exfalso; eauto |].
        rewrite key_of_folder_like in K; eauto using present_no_slash.
Qed.

Lemma present_ids_storage (w w' : World) :
  storage w' = storage w -> present_ids cfg w' = present_ids cfg w.
Proof. unfold present_ids. now intros ->. Qed.

(** A run over a store that already holds exactly the identifiers of the
    bucket issues no call beyond the two listings. *)
Lemma in_sync_run_quiet (w : World) :
  stored_ids w = present_ids cfg w ->
  exists r w' evs,
    main cfg svc w = (r, w') /\ trace w' = trace w ++ evs /\ quiet evs /\
    images w' = images w /\ storage w' = storage w.
Proof.
  intros Hsync.
  destruct (list_blobs_error svc (listing_history w)) as [e |] eqn:Hl.
  { eexists _, _, _. split; [exact (main_listing_fails w e Hl) |]. repeat split. }
  destruct (stream_error svc (stream_history cfg w)) as [e |] eqn:Hs.
  { eexists _, _, _. split; [exact (main_stream_fails w e Hl Hs) |].
    repeat split. }
  eexists _, _, _.
  split; [rewrite main_reaches_reconcile by assumption;
          rewrite Hsync; apply reconcile_in_sync |].
  unfold at_reconcile, after. simpl. rewrite <- app_assoc. repeat split.
Qed.

(** An identifier both present and stored is neither deleted nor fetched. *)
Lemma common_id_untouched (w w' : World) (r : Result unit) (evs : list Event)
      (id : string) :
  main cfg svc w = (r, w') ->
  trace w' = trace w ++ evs ->
  id ∈ present_ids cfg w -> id ∈ stored_ids w ->
  (id ∉ delete_calls evs) /\ (prefix +:+ id ∉ download_calls evs) /\
  (folder_like prefix = true -> images w' !! id = images w !! id).
Proof.
  intros Hmain Htr Hp Hst.
  destruct (main_outcome w)
    as [(e & _ & Hrun) | [(e & _ & _ & Hrun) | (_ & _ & w2 & evs2 & Hrun & R)]];
    rewrite Hrun in Hmain; injection Hmain as <- <-.
  - unfold after in Htr. simpl in Htr. apply app_inv_head in Htr. subst evs.
    repeat split; simpl; try apply not_elem_of_nil.
  - unfold after in Htr. simpl in Htr. apply app_inv_head in Htr. subst evs.
    repeat split; simpl; try apply not_elem_of_nil.
  - destruct R as [S T D L C F _ _ _].
    rewrite T in Htr. apply app_inv_head in Htr. subst evs2.
    split; [| split].
    + rewrite D, elem_of_elements, elem_of_difference. tauto.
    + rewrite L. intros Hin.
      apply list_elem_of_In, in_map_iff in Hin as (id' & Heq & Hin).
      apply append_inv_head in Heq. subst id'.
      apply list_elem_of_In, elem_of_elements, elem_of_difference in Hin. tauto.
    + intros Hfl. destruct (F id) as [E | [[Hin _] | (md & Hin & _)]]; [exact E | |].
      * apply elem_of_difference in Hin. tauto.
      * destruct (C id md Hin) as (id' & Hid' & Hk & _).
        apply elem_of_difference in Hid' as [Hp' Hn'].
        rewrite key_of_folder_like in Hk; eauto using present_no_slash.
        subst id'. contradiction.
Qed.

(** Under a folder-like prefix, a record found under key [k] after a run is
    the one that was there before or names the path prefix followed by [k]. *)
Lemma written_file_name (w w' : World) (r : Result unit) (k : string)
      (md : Metadata) :
  folder_like prefix = true ->
  main cfg svc w = (r, w') ->
  images w' !! k = Some md ->
  images w !! k = Some md \/ file_name md = prefix +:+ k.
Proof.
  intros Hfl Hmain Hk.
  destruct (main_outcome w)
    as [(e & _ & Hrun) | [(e & _ & _ & Hrun) | (_ & _ & w2 & evs2 & Hrun & R)]];
    rewrite Hrun in Hmain; injection Hmain as <- <-; [now left | now left |].
  destruct R as [_ _ _ _ C F _ _ _].
  destruct (F k) as [E | [[_ N] | (md' & Hin & K)]]; [left | |]; try congruence.
  right. destruct (C k md' Hin) as (id & Hid & Hkey & Hname & _).
  apply elem_of_difference in Hid as [Hid _].
  rewrite key_of_folder_like in Hkey; eauto using present_no_slash.
  congruence.
Qed.

End Runs.

(** * The reconciler *)

(** C3. If the store listing fails, [main] prints the error and returns at
    once: the run consists of the start line, the two listing calls and the
    error line; no delete, no download, no tagging, no translation and no
    save is issued, and neither the bucket nor the collection changes. *)
Theorem store_listing_failure_aborts (cfg : Config) (svc : Services)
        (w : World) (e : Exn) :
  list_blobs_error svc (listing_history w) = None ->
  stream_error svc (stream_history cfg w) = Some e ->
  exists w' evs,
    main cfg svc w = (Ok tt, w') /\
    trace w' = trace w ++ evs /\
    evs = [Print LogStart;
           CallListBlobs (BUCKET_NAME cfg) (BUCKET_FOLDER_PATH cfg);
           CallStream; Print (LogFirestoreError e)] /\
    quiet evs /\
    images w' = images w /\ storage w' = storage w.
Proof.
  intros Hl Hs.
  exists (after w [Print LogStart;
                   CallListBlobs (BUCKET_NAME cfg) (BUCKET_FOLDER_PATH cfg);
                   CallStream; Print (LogFirestoreError e)]).
  eexists. split; [exact (main_stream_fails cfg svc w e Hl Hs) |].
  repeat split.
Qed.

Lemma store_listing_failure_aborts_witness :
  list_blobs_error Demo.store_down (listing_history Demo.scenario) = None /\
  stream_error Demo.store_down (stream_history Demo.cfg Demo.scenario)
  = Some (ServiceError "unavailable") /\
  exists w' evs,
    main Demo.cfg Demo.store_down Demo.scenario = (Ok tt, w') /\
    trace w' = trace Demo.scenario ++ evs /\
    evs = [Print LogStart; CallListBlobs "acervo" "photos/"; CallStream;
           Print (LogFirestoreError (ServiceError "unavailable"))] /\
    quiet evs /\
    images w' = images Demo.scenario /\ storage w' = storage Demo.scenario.
Proof.
  split; [reflexivity |]. split; [reflexivity |].
  apply (store_listing_failure_aborts Demo.cfg Demo.store_down Demo.scenario);
    reflexivity.
Defined.

(** C1. Once both listings have succeeded, the deletions issued are exactly
    the identifiers stored but not present, and the pictures fetched are
    exactly those present but not stored, each once. *)
Theorem reconciler_computes_differences (cfg : Config) (svc : Services)
        (w : World) :
  iterates_sets svc ->
  list_blobs_error svc (listing_history w) = None ->
  stream_error svc (stream_history cfg w) = None ->
  exists w' evs,
    main cfg svc w = (Ok tt, w') /\
    trace w' = trace w ++ evs /\
    delete_calls evs ≡ₚ elements (stored_ids w ∖ present_ids cfg w) /\
    download_calls evs
    ≡ₚ List.map (String.append (BUCKET_FOLDER_PATH cfg))
                (elements (present_ids cfg w ∖ stored_ids w)).
Proof.
  intros Hiter Hl Hs.
  destruct (main_reconciled cfg svc Hiter w Hl Hs) as (w' & evs & Hrun & R).
  exists w', evs. split; [exact Hrun |].
  split; [apply R |]. split; apply R.
Qed.

(** The scenario of the specification: storage holds a.jpg and b.png, the
    store holds b.png and c.jpg. *)
Lemma reconciler_scenario :
  present_ids Demo.cfg Demo.scenario = {[ "a.jpg"; "b.png" ]} /\
  stored_ids Demo.scenario = {[ "b.png"; "c.jpg" ]} /\
  exists w' evs,
    main Demo.cfg Demo.reliable Demo.scenario = (Ok tt, w') /\
    trace w' = trace Demo.scenario ++ evs /\
    delete_calls evs = ["c.jpg"] /\
    download_calls evs = ["photos/a.jpg"].
Proof.
  split; [vm_compute; reflexivity |]. split; [vm_compute; reflexivity |].
  destruct (reconciler_computes_differences Demo.cfg Demo.reliable Demo.scenario)
    as (w' & evs & Hrun & Htr & Hdel & Hdl);
    [intros X; reflexivity | reflexivity | reflexivity |].
  exists w', evs. split; [exact Hrun |]. split; [exact Htr |].
  assert (elements (stored_ids Demo.scenario ∖ present_ids Demo.cfg Demo.scenario)
          = ["c.jpg"]) as E1 by (vm_compute; reflexivity).
  assert (elements (present_ids Demo.cfg Demo.scenario ∖ stored_ids Demo.scenario)
          = ["a.jpg"]) as E2 by (vm_compute; reflexivity).
  rewrite E1 in Hdel. rewrite E2 in Hdl.
  split; [now apply Permutation_singleton_r in Hdel |].
  now apply Permutation_singleton_r in Hdl.
Defined.

(** C10. For every new identifier the pipeline is asked for the prefix
    immediately followed by the identifier.  For a listed object, whose name
    is the prefix followed by some rest, that path is the object's name
    exactly when the rest holds no slash and the prefix is empty or ends
    with a slash; for an object in a nested folder it is another path. *)
Theorem pipeline_path_is_prefix_plus_id (cfg : Config) (svc : Services)
        (w : World) :
  iterates_sets svc ->
  list_blobs_error svc (listing_history w) = None ->
  stream_error svc (stream_history cfg w) = None ->
  exists w' evs,
    main cfg svc w = (Ok tt, w') /\
    trace w' = trace w ++ evs /\
    download_calls evs
    ≡ₚ List.map (String.append (BUCKET_FOLDER_PATH cfg))
                (elements (present_ids cfg w ∖ stored_ids w)) /\
    (forall rest,
        BUCKET_FOLDER_PATH cfg
          +:+ PyStr.basename (BUCKET_FOLDER_PATH cfg +:+ rest)
        = BUCKET_FOLDER_PATH cfg +:+ rest
        <-> PyStr.contains "/" rest = false
            /\ folder_like (BUCKET_FOLDER_PATH cfg) = true) /\
    (forall rest,
        PyStr.contains "/" rest = true ->
        BUCKET_FOLDER_PATH cfg
          +:+ PyStr.basename (BUCKET_FOLDER_PATH cfg +:+ rest)
        <> BUCKET_FOLDER_PATH cfg +:+ rest).
Proof.
  intros Hiter Hl Hs.
  destruct (main_reconciled cfg svc Hiter w Hl Hs) as (w' & evs & Hrun & R).
  exists w', evs. split; [exact Hrun |].
  split; [apply R |]. split; [apply R |].
  split; [intros rest; apply PyStrFacts.rebuilt_path_spec |].
  intros rest Hrest Heq.
  apply PyStrFacts.rebuilt_path_spec in Heq as [Hno _]. congruence.
Qed.

(** A picture in a nested folder, photos/sub/b.png with prefix photos/, is
    fetched as photos/b.png. *)
Lemma pipeline_path_is_prefix_plus_id_witness :
  exists w' evs,
    main Demo.cfg Demo.reliable Demo.mixed = (Ok tt, w') /\
    trace w' = trace Demo.mixed ++ evs /\
    download_calls evs
    ≡ₚ ["photos/e.jpeg"; "photos/a.jpg"; "photos/b.png"] /\
    "photos/" +:+ PyStr.basename ("photos/" +:+ "sub/b.png") <> "photos/sub/b.png".
Proof.
  destruct (pipeline_path_is_prefix_plus_id Demo.cfg Demo.reliable Demo.mixed)
    as (w' & evs & Hrun & Htr & Hdl & _ & Hnested);
    [intros X; reflexivity | reflexivity | reflexivity |].
  exists w', evs. do 2 (split; [assumption |]).
  split; [| apply (Hnested "sub/b.png"); reflexivity].
  assert (elements (present_ids Demo.cfg Demo.mixed ∖ stored_ids Demo.mixed)
          = ["e.jpeg"; "a.jpg"; "b.png"]) as E by (vm_compute; reflexivity).
  now rewrite E in Hdl.
Defined.

(** C2, amended.  When the folder prefix is empty or ends with a slash,
    after a run that returns normally and reports no failure the store holds
    exactly one record for every identifier of the bucket and no record
    under any other key. *)
Theorem successful_run_syncs_keys (cfg : Config) (svc : Services)
        (w w' : World) (evs : list Event) :
  iterates_sets svc ->
  folder_like (BUCKET_FOLDER_PATH cfg) = true ->
  main cfg svc w = (Ok tt, w') ->
  trace w' = trace w ++ evs ->
  clean evs ->
  storage w' = storage w /\
  stored_ids w' = present_ids cfg w' /\
  (forall id, id ∈ present_ids cfg w' ->
     exists md, images w' !! id = Some md /\
                forall md', images w' !! id = Some md' -> md' = md) /\
  (forall id md, images w' !! id = Some md -> id ∈ present_ids cfg w').
Proof.
  intros Hiter Hp Hmain Htr Hclean.
  destruct (clean_run_in_sync cfg svc Hiter w w' evs Hp Hmain Htr Hclean)
    as [Hst Hsync].
  rewrite (present_ids_storage cfg w w' Hst).
  split; [exact Hst |]. split; [exact Hsync |]. unfold stored_ids in Hsync. split.
  - intros id Hin. rewrite <- Hsync in Hin. apply elem_of_dom in Hin as [md Hmd].
    exists md. split; [exact Hmd | congruence].
  - intros id md Hmd. rewrite <- Hsync. apply elem_of_dom. eauto.
Qed.

Lemma run_returns (m : M unit) (w : World) :
  fst (m w) = Ok tt -> m w = (Ok tt, snd (m w)).
Proof. destruct (m w) as [r w']. simpl. now intros ->. Qed.

Lemma successful_run_syncs_keys_witness :
  exists w',
    main Demo.cfg Demo.reliable Demo.scenario = (Ok tt, w') /\
    clean (trace w') /\
    stored_ids w' = {[ "a.jpg"; "b.png" ]} /\
    present_ids Demo.cfg w' = {[ "a.jpg"; "b.png" ]}.
Proof.
  exists (snd (main Demo.cfg Demo.reliable Demo.scenario)).
  assert (main Demo.cfg Demo.reliable Demo.scenario
          = (Ok tt, snd (main Demo.cfg Demo.reliable Demo.scenario))) as Hrun
    by (apply run_returns; vm_compute; reflexivity).
  assert (clean (trace (snd (main Demo.cfg Demo.reliable Demo.scenario))))
    as Hclean by (vm_compute; repeat constructor).
  split; [exact Hrun |]. split; [exact Hclean |].
  destruct (successful_run_syncs_keys Demo.cfg Demo.reliable Demo.scenario
              (snd (main Demo.cfg Demo.reliable Demo.scenario))
              (trace (snd (main Demo.cfg Demo.reliable Demo.scenario))))
    as (_ & Hsync & _); try assumption; try reflexivity.
  { intros X. reflexivity. }
  rewrite Hsync. split; vm_compute; reflexivity.
Defined.

(** C2 as stated fails for a prefix without final slash.  With prefix img,
    objects imga.jpg and imgimga.jpg and a record for imgimga.jpg, the run
    returns normally and reports no failure, yet imga.jpg, an identifier of
    the bucket, has no record afterwards: its picture was fetched as
    imgimga.jpg and saved under that key. *)
Lemma sync_keys_need_folder_prefix :
  fst (main Demo.cfg_img Demo.reliable Demo.no_slash) = Ok tt /\
  clean (trace Demo.no_slash_synced) /\
  present_ids Demo.cfg_img Demo.no_slash_synced = {[ "imga.jpg"; "imgimga.jpg" ]} /\
  stored_ids Demo.no_slash_synced = {[ "imgimga.jpg" ]} /\
  images Demo.no_slash_synced !! "imga.jpg" = None /\
  stored_ids Demo.no_slash_synced <> present_ids Demo.cfg_img Demo.no_slash_synced.
Proof.
  split; [vm_compute; reflexivity |].
  split; [vm_compute; repeat constructor |].
  split; [vm_compute; reflexivity |].
  split; [vm_compute; reflexivity |].
  split; [vm_compute; reflexivity |].
  vm_compute. discriminate.
Qed.

(** C5, amended.  When the folder prefix is empty or ends with a slash, a
    run that follows a run which returned normally and reported no failure
    issues no delete, fetch, tagging, translation or save and leaves the
    store as it is.  Whatever the prefix, a run over a store whose keys are
    exactly the identifiers of the bucket issues none of these calls; and an
    identifier both present and stored is never deleted and never handed to
    the pipeline, its record staying as it is when the prefix is
    folder-like. *)
Theorem synchronize_idempotent (cfg : Config) (svc : Services) :
  iterates_sets svc ->
  (forall w w1 evs1,
      folder_like (BUCKET_FOLDER_PATH cfg) = true ->
      main cfg svc w = (Ok tt, w1) ->
      trace w1 = trace w ++ evs1 ->
      clean evs1 ->
      exists r w2 evs2,
        main cfg svc w1 = (r, w2) /\ trace w2 = trace w1 ++ evs2 /\
        quiet evs2 /\ images w2 = images w1 /\ storage w2 = storage w1) /\
  (forall w,
      stored_ids w = present_ids cfg w ->
      exists r w' evs,
        main cfg svc w = (r, w') /\ trace w' = trace w ++ evs /\
        quiet evs /\ images w' = images w /\ storage w' = storage w) /\
  (forall w r w' evs id,
      main cfg svc w = (r, w') ->
      trace w' = trace w ++ evs ->
      id ∈ present_ids cfg w -> id ∈ stored_ids w ->
      (id ∉ delete_calls evs) /\
      (BUCKET_FOLDER_PATH cfg +:+ id ∉ download_calls evs) /\
      (folder_like (BUCKET_FOLDER_PATH cfg) = true ->
       images w' !! id = images w !! id)).
Proof.
  intros Hiter. split; [| split].
  - intros w w1 evs1 Hp Hmain Htr Hclean.
    destruct (clean_run_in_sync cfg svc Hiter w w1 evs1 Hp Hmain Htr Hclean)
      as [Hst Hsync].
    apply in_sync_run_quiet.
    now rewrite (present_ids_storage cfg w w1 Hst).
  - intros w. apply in_sync_run_quiet.
  - intros w r w' evs id. now apply common_id_untouched.
Qed.

(** The scenario of the specification where storage and store both hold
    x.png, and a second run after a first one over a.jpg, b.png and a stale
    c.jpg. *)
Lemma synchronize_idempotent_witness :
  (exists w1,
      main Demo.cfg Demo.reliable Demo.scenario = (Ok tt, w1) /\
      clean (trace w1) /\
      exists r w2 evs2,
        main Demo.cfg Demo.reliable w1 = (r, w2) /\
        trace w2 = trace w1 ++ evs2 /\ quiet evs2 /\
        images w2 = images w1 /\ storage w2 = storage w1) /\
  (exists r w' evs,
      main Demo.cfg Demo.reliable Demo.in_sync = (r, w') /\
      trace w' = trace Demo.in_sync ++ evs /\ quiet evs /\
      images w' = images Demo.in_sync /\ storage w' = storage Demo.in_sync).
Proof.
  assert (iterates_sets Demo.reliable) as Hiter by (intros X; reflexivity).
  destruct (synchronize_idempotent Demo.cfg Demo.reliable Hiter)
    as (Hsecond & Hsync & _).
  split.
  - exists (snd (main Demo.cfg Demo.reliable Demo.scenario)).
    assert (main Demo.cfg Demo.reliable Demo.scenario
            = (Ok tt, snd (main Demo.cfg Demo.reliable Demo.scenario))) as Hrun
      by (apply run_returns; vm_compute; reflexivity).
    assert (clean (trace (snd (main Demo.cfg Demo.reliable Demo.scenario))))
      as Hclean by (vm_compute; repeat constructor).
    split; [exact Hrun |]. split; [exact Hclean |].
    apply (Hsecond Demo.scenario _ (trace (snd (main Demo.cfg Demo.reliable
                                                   Demo.scenario))));
      [reflexivity | exact Hrun | reflexivity | exact Hclean].
  - apply Hsync. vm_compute. reflexivity.
Defined.

(** C5 as stated fails for a prefix without final slash.  With prefix img,
    objects imga.jpg and imgimga.jpg and a record for imgimga.jpg, the first
    run returns normally and reports no failure; the second run, over the
    unchanged bucket, fetches imgimga.jpg and saves its record once more. *)
Lemma second_run_creates_again :
  fst (main Demo.cfg_img Demo.reliable Demo.no_slash) = Ok tt /\
  clean (trace Demo.no_slash_synced) /\
  storage Demo.no_slash_synced = storage Demo.no_slash /\
  fst (main Demo.cfg_img Demo.reliable Demo.no_slash_synced) = Ok tt /\
  download_calls
    (drop (length (trace Demo.no_slash_synced))
          (trace (snd (main Demo.cfg_img Demo.reliable Demo.no_slash_synced))))
  = ["imgimga.jpg"] /\
  List.map fst
    (set_calls
       (drop (length (trace Demo.no_slash_synced))
             (trace (snd (main Demo.cfg_img Demo.reliable Demo.no_slash_synced)))))
  = ["imgimga.jpg"].
Proof.
  split; [vm_compute; reflexivity |].
  split; [vm_compute; repeat constructor |].
  split; [reflexivity |].
  split; [vm_compute; reflexivity |].
  split; vm_compute; reflexivity.
Qed.

(** C9, amended.  Two distinct listed pictures with the same basename give
    one identifier.  Whatever the run then writes for an identifier carries
    as [file_name] the prefix followed by that identifier, is keyed by the
    basename of that path, and is written only if an object of exactly that
    name exists; no path is fetched twice, and every record of the store
    afterwards is an old one or one written in this run. *)
Theorem same_basename_collapses (cfg : Config) (svc : Services) (w w' : World)
        (n1 n2 : string) (r : Result unit) (evs : list Event) :
  iterates_sets svc ->
  n1 ∈ blobs_under (storage w (BUCKET_NAME cfg)) (BUCKET_FOLDER_PATH cfg) ->
  n2 ∈ blobs_under (storage w (BUCKET_NAME cfg)) (BUCKET_FOLDER_PATH cfg) ->
  PyStr.endswith_any n1 IMAGE_EXTENSIONS = true ->
  PyStr.endswith_any n2 IMAGE_EXTENSIONS = true ->
  n1 <> BUCKET_FOLDER_PATH cfg -> n2 <> BUCKET_FOLDER_PATH cfg ->
  n1 <> n2 ->
  PyStr.basename n1 = PyStr.basename n2 ->
  main cfg svc w = (r, w') ->
  trace w' = trace w ++ evs ->
  collect_images [n1; n2] (BUCKET_FOLDER_PATH cfg) = {[ PyStr.basename n1 ]} /\
  PyStr.basename n1 ∈ present_ids cfg w /\
  (forall k md, (k, md) ∈ set_calls evs ->
     exists id, id ∈ present_ids cfg w
                /\ file_name md = BUCKET_FOLDER_PATH cfg +:+ id
                /\ file_id md = k
                /\ k = PyStr.basename (BUCKET_FOLDER_PATH cfg +:+ id)
                /\ is_Some (storage w (BUCKET_NAME cfg)
                              !! (BUCKET_FOLDER_PATH cfg +:+ id))) /\
  NoDup (download_calls evs) /\
  (forall k md, images w' !! k = Some md ->
     images w !! k = Some md \/ (k, md) ∈ set_calls evs).
Proof.
  intros Hiter Hn1 Hn2 He1 He2 Hp1 Hp2 _ Hbase Hmain Htr.
  split.
  { apply set_eq. intros id. rewrite collect_images_spec, elem_of_singleton.
    split.
    - intros (name & Hin & _ & _ & ->).
      apply elem_of_cons in Hin as [-> | Hin]; [reflexivity |].
      apply list_elem_of_singleton in Hin as ->. now symmetry.
    - intros ->. exists n1. repeat split; [left | assumption ..]. }
  split.
  { apply collect_images_spec. exists n1. repeat split; assumption. }
  destruct (main_outcome cfg svc Hiter w)
    as [(e & _ & Hrun) | [(e & _ & _ & Hrun) | (_ & _ & w2 & evs2 & Hrun & R)]];
    rewrite Hrun in Hmain; injection Hmain as <- <-.
  - unfold after in Htr. simpl in Htr. apply app_inv_head in Htr. subst evs.
    simpl. repeat split; [intros k md Hin; inversion Hin | constructor | auto].
  - unfold after in Htr. simpl in Htr. apply app_inv_head in Htr. subst evs.
    simpl. repeat split; [intros k md Hin; inversion Hin | constructor | auto].
  - destruct R as [S T D L C F _ _ _].
    rewrite T in Htr. apply app_inv_head in Htr. subst evs2.
    split; [| split].
    + intros k md Hin. destruct (C k md Hin) as (id & Hid & Hk & Hn & Hf & Ho).
      exists id. apply elem_of_difference in Hid as [Hid _]. auto.
    + rewrite L. apply NoDup_fmap_2; [| apply NoDup_elements].
      intros a b. apply PyStrFacts.append_inv_head.
    + intros k md Hk. destruct (F k) as [E | [[_ N] | (md' & Hin & K)]].
      * left. congruence.
      * congruence.
      * right. congruence.
Qed.

Lemma same_basename_collapses_witness :
  collect_images ["photos/2023/x.jpg"; "photos/2024/x.jpg"] "photos/"
  = {[ "x.jpg" ]} /\
  "x.jpg" ∈ present_ids Demo.cfg Demo.twins /\
  NoDup (download_calls (trace (snd (main Demo.cfg Demo.reliable Demo.twins)))).
Proof.
  destruct (same_basename_collapses Demo.cfg Demo.reliable Demo.twins
              (snd (main Demo.cfg Demo.reliable Demo.twins))
              "photos/2023/x.jpg" "photos/2024/x.jpg"
              (fst (main Demo.cfg Demo.reliable Demo.twins))
              (trace (snd (main Demo.cfg Demo.reliable Demo.twins))))
    as (H1 & H2 & _ & H3 & _).
  - intros X. reflexivity.
  - apply blobs_under_spec. split; [vm_compute; eauto | reflexivity].
  - apply blobs_under_spec. split; [vm_compute; eauto | reflexivity].
  - reflexivity.
  - reflexivity.
  - discriminate.
  - discriminate.
  - discriminate.
  - reflexivity.
  - apply surjective_pairing.
  - reflexivity.
  - split; [exact H1 |]. split; [exact H2 | exact H3].
Defined.

(** C9 as stated fails.  With photos/2023/x.jpg and photos/2024/x.jpg under
    the prefix photos/, the two objects give the single identifier x.jpg,
    the only path fetched is photos/x.jpg, which is neither object, the
    fetch fails and no record is written at all.  With photos/x.jpg and
    photos/2024/x.jpg, whatever the collaborators answer and in whatever
    order sets are iterated, a record found under x.jpg after the run names
    photos/x.jpg. *)
Lemma twins_yield_no_record :
  (blobs_under (storage Demo.twins "acervo") "photos/"
   = ["photos/2023/x.jpg"; "photos/2024/x.jpg"] /\
   present_ids Demo.cfg Demo.twins = {[ "x.jpg" ]} /\
   fst (main Demo.cfg Demo.reliable Demo.twins) = Ok tt /\
   download_calls (trace (snd (main Demo.cfg Demo.reliable Demo.twins)))
   = ["photos/x.jpg"] /\
   set_calls (trace (snd (main Demo.cfg Demo.reliable Demo.twins))) = [] /\
   images (snd (main Demo.cfg Demo.reliable Demo.twins)) = ∅) /\
  (present_ids Demo.cfg Demo.twins_top = {[ "x.jpg" ]} /\
   forall svc r w' md,
     iterates_sets svc ->
     main Demo.cfg svc Demo.twins_top = (r, w') ->
     images w' !! "x.jpg" = Some md ->
     file_name md = "photos/x.jpg").
Proof.
  split; [repeat split; vm_compute; reflexivity |].
  split; [vm_compute; reflexivity |].
  intros svc r w' md Hiter Hmain Hk.
  destruct (written_file_name Demo.cfg svc Hiter Demo.twins_top w' r "x.jpg" md)
    as [Hold | Hname]; [reflexivity | exact Hmain | exact Hk | | exact Hname].
  vm_compute in Hold. discriminate.
Qed.

(** * The pipeline and the lister *)

Lemma aligned_entries (ts : list Translation) (values : list string) :
  List.map input ts = values ->
  length (List.map translatedText ts) = length values /\
  forall i en, values !! i = Some en ->
    exists t, ts !! i = Some t /\ input t = en
              /\ List.map translatedText ts !! i = Some (translatedText t).
Proof.
  intros <-. split; [now rewrite !length_map |].
  intros i en Hi.
  change (List.map input ts) with (input <$> ts) in Hi.
  rewrite list_lookup_fmap in Hi.
  destruct (ts !! i) as [t |] eqn:Ht; [| discriminate].
  injection Hi as <-. exists t. repeat split.
  change (List.map translatedText ts) with (translatedText <$> ts).
  now rewrite list_lookup_fmap, Ht.
Qed.

(** C6. The translation step of the pipeline.  When the pipeline returns a
    record and its English tags are not empty, the translation service was
    called exactly once, with the whole list and target pt, and the
    Portuguese tags are the translated texts of its answer, entry by entry:
    same length, the i-th being the translation given for the i-th English
    tag.  When the English tags are empty the service was not called and the
    Portuguese tags are empty. *)
Theorem translate_step_aligned (cfg : Config) (svc : Services) (path : string)
        (w w' : World) (md : Metadata) :
  translation_aligned svc ->
  get_image_metadata cfg svc path w = (Ok md, w') ->
  exists evs,
    trace w' = trace w ++ evs /\
    match tags_en md with
    | [] => translate_calls evs = [] /\ tags_pt md = []
    | _ :: _ =>
        translate_calls evs = [tags_en md] /\
        CallTranslate (tags_en md) "pt" ∈ evs /\
        length (tags_pt md) = length (tags_en md) /\
        exists h ts,
          translate svc h (tags_en md) = Ok ts /\
          tags_pt md = List.map translatedText ts /\
          forall i en, tags_en md !! i = Some en ->
            exists t, ts !! i = Some t /\ input t = en
                      /\ tags_pt md !! i = Some (translatedText t)
    end.
Proof.
  intros Hal.
  unfold get_image_metadata, download_as_bytes, lift_result, gemini_generate,
    translate_tags, translate_batch, now_isoformat, try_except, bind, ret,
    raise, print, emit.
  simpl. intros H.
  repeat case_match; simplify_eq /=; rewrite <- ?app_assoc; simpl;
    (eexists; split; [reflexivity |]).
  - split; reflexivity.
  - match goal with
    | Htr : translate svc ?h ?tags = Ok ?ts |- _ =>
        destruct (aligned_entries ts tags (Hal h tags ts Htr)) as [Hlen Hidx];
        split; [reflexivity |];
        split; [do 2 right; left |];
        split; [exact Hlen |];
        exists h, ts; split; [exact Htr |]; split; [reflexivity | exact Hidx]
    end.
Qed.

Lemma reliable_aligned : translation_aligned Demo.reliable.
Proof.
  intros h values ts H. injection H as <-.
  rewrite List.map_map. simpl. apply List.map_id.
Qed.

Lemma translate_step_aligned_witness :
  exists md w' evs,
    get_image_metadata Demo.cfg Demo.reliable "photos/a.jpg" Demo.scenario
    = (Ok md, w') /\
    trace w' = trace Demo.scenario ++ evs /\
    tags_en md = ["cat"; "dog"; "outdoor"] /\
    translate_calls evs = [["cat"; "dog"; "outdoor"]] /\
    tags_pt md = ["pt:cat"; "pt:dog"; "pt:outdoor"].
Proof.
  pose (run := get_image_metadata Demo.cfg Demo.reliable "photos/a.jpg"
                                  Demo.scenario).
  assert (exists md, run = (Ok md, snd run) /\
                     tags_en md = ["cat"; "dog"; "outdoor"] /\
                     tags_pt md = ["pt:cat"; "pt:dog"; "pt:outdoor"])
    as (md & Hrun & Hen & Hpt).
  { eexists. split; [vm_compute; reflexivity |]. split; reflexivity. }
  destruct (translate_step_aligned Demo.cfg Demo.reliable "photos/a.jpg"
              Demo.scenario (snd run) md reliable_aligned Hrun)
    as (evs & Htr & Hstep).
  exists md, (snd run), evs. split; [exact Hrun |]. split; [exact Htr |].
  rewrite Hen in Hstep. destruct Hstep as (Hcalls & _).
  repeat split; assumption.
Defined.

(** A reply made of commas and blanks gives no tags: the translation service
    is not called and the record is saved with two empty lists. *)
Example empty_reply_skips_translation :
  translate_calls (trace (snd (main Demo.cfg Demo.silent Demo.scenario))) = [] /\
  (tags_en <$> images (snd (main Demo.cfg Demo.silent Demo.scenario)) !! "a.jpg")
  = Some [] /\
  (tags_pt <$> images (snd (main Demo.cfg Demo.silent Demo.scenario)) !! "a.jpg")
  = Some [].
Proof. repeat split; vm_compute; reflexivity. Qed.

(** C8. When the listing call succeeds, [list_images_in_bucket] returns
    exactly the basenames of the objects of the bucket whose name starts
    with the prefix, ends in .jpg, .jpeg or .png, compared character by
    character, and is not the prefix itself; no identifier it returns holds
    a slash.  The basename of a name is its last segment: the name is a
    directory part, empty or ending with a slash, followed by it. *)
Theorem list_images_returns_basenames (svc : Services)
        (bucket_name folder_path : string) (w : World) :
  list_blobs_error svc (trace w) = None ->
  exists files,
    list_images_in_bucket svc bucket_name folder_path w
    = (Ok files, after w [CallListBlobs bucket_name folder_path]) /\
    (forall id,
        id ∈ files <->
        exists name,
          is_Some (storage w bucket_name !! name) /\
          (exists rest, name = folder_path +:+ rest) /\
          (exists stem, name = stem +:+ ".jpg" \/ name = stem +:+ ".jpeg"
                        \/ name = stem +:+ ".png") /\
          name <> folder_path /\
          id = PyStr.basename name) /\
    (forall id, id ∈ files -> PyStr.contains "/" id = false) /\
    (forall name, exists dir,
        name = dir +:+ PyStr.basename name /\ folder_like dir = true
        /\ PyStr.contains "/" (PyStr.basename name) = false).
Proof.
  intros Hl.
  exists (collect_images (blobs_under (storage w bucket_name) folder_path)
                         folder_path).
  split; [| split; [| split]]; [| | | exact PyStrFacts.basename_last_segment].
  - unfold list_images_in_bucket, list_blobs, bind, ret. now rewrite Hl.
  - intros id. rewrite collect_images_spec. split.
    + intros (name & Hin & Hext & Hne & ->). exists name.
      apply blobs_under_spec in Hin as [Hobj Hpre].
      apply PyStrFacts.startswith_spec in Hpre.
      apply image_extension_spec in Hext. auto.
    + intros (name & Hobj & Hpre & Hext & Hne & ->). exists name.
      split; [apply blobs_under_spec; split;
              [exact Hobj | now apply PyStrFacts.startswith_spec] |].
      split; [now apply image_extension_spec | auto].
  - intros id Hin. now apply collect_images_ids in Hin as (? & _).
Qed.

(** A folder marker, a nested picture, an upper-case extension, a text file
    and an object outside the prefix: three basenames come back. *)
Lemma list_images_returns_basenames_witness :
  exists files,
    list_images_in_bucket Demo.reliable "acervo" "photos/" Demo.mixed
    = (Ok files, after Demo.mixed [CallListBlobs "acervo" "photos/"]) /\
    files = {[ "a.jpg"; "b.png"; "e.jpeg" ]} /\
    (forall id, id ∈ files -> PyStr.contains "/" id = false).
Proof.
  destruct (list_images_returns_basenames Demo.reliable "acervo" "photos/"
              Demo.mixed) as (files & Hrun & _ & Hslash & _); [reflexivity |].
  exists files. split; [exact Hrun |]. split; [| exact Hslash].
  assert (fst (list_images_in_bucket Demo.reliable "acervo" "photos/" Demo.mixed)
          = Ok files) as Hf by now rewrite Hrun.
  vm_compute in Hf. injection Hf as <-. vm_compute. reflexivity.
Defined.

(** * Beyond the reconciler: start-up, the lister and the parser *)

(** X1. Start-up validation.  The settings are produced exactly when both
    GOOGLE_APPLICATION_CREDENTIALS and BUCKET_NAME are set to non-empty
    strings; a variable set to the empty string counts as missing; the
    credentials are checked first; the three optional variables fall back to
    their defaults, and with BUCKET_FOLDER_PATH unset the prefix is empty,
    hence folder-like. *)
Theorem load_settings_validates (environ : gmap string string) :
  (load_settings environ = inl CredentialsNotDefined
   <-> environ !! "GOOGLE_APPLICATION_CREDENTIALS" = None
       \/ environ !! "GOOGLE_APPLICATION_CREDENTIALS" = Some "") /\
  (load_settings environ = inl BucketNameNotDefined
   <-> (exists f, environ !! "GOOGLE_APPLICATION_CREDENTIALS" = Some f /\ f <> "")
       /\ (environ !! "BUCKET_NAME" = None \/ environ !! "BUCKET_NAME" = Some "")) /\
  (forall s,
      load_settings environ = inr s
      <-> exists f b,
          environ !! "GOOGLE_APPLICATION_CREDENTIALS" = Some f /\ f <> "" /\
          environ !! "BUCKET_NAME" = Some b /\ b <> "" /\
          s = {| SERVICE_ACCOUNT_FILE := f;
                 run_config :=
                   mkConfig b (default "" (environ !! "BUCKET_FOLDER_PATH"));
                 FIRESTORE_DATABASE :=
                   default "acervo-fotos-ia" (environ !! "FIRESTORE_DATABASE");
                 GEMINI_MODEL :=
                   default "gemini-1.5-flash" (environ !! "GEMINI_MODEL") |}) /\
  (forall s,
      load_settings environ = inr s ->
      environ !! "BUCKET_FOLDER_PATH" = None ->
      BUCKET_FOLDER_PATH (run_config s) = ""
      /\ folder_like (BUCKET_FOLDER_PATH (run_config s)) = true).
Proof.
  unfold load_settings, getenv, getenv_default, truthy_env.
  destruct (environ !! "GOOGLE_APPLICATION_CREDENTIALS") as [[|c f] |] eqn:Hc;
    destruct (environ !! "BUCKET_NAME") as [[|c' b] |] eqn:Hb;
    destruct (environ !! "BUCKET_FOLDER_PATH") as [p |] eqn:Hp;
    destruct (environ !! "FIRESTORE_DATABASE") as [d |] eqn:Hd;
    destruct (environ !! "GEMINI_MODEL") as [g |] eqn:Hg;
    simpl; (split; [| split; [| split]]);
    try (split; intros; try discriminate; auto; fail);
    try (intros s; split; [discriminate | intros (f' & b' & ? & ? & ? & ? & ?); congruence]);
    try (intros s ? ?; discriminate);
    try (split; [discriminate | intros [? | ?]; discriminate]);
    try (split; [discriminate | intros [(f' & ? & ?) [? | ?]]; congruence]);
    try (split; [intros _; split; [eexists; split; [reflexivity | discriminate] | auto] | reflexivity]);
    try (intros s; split;
         [intros H; injection H as <-; eexists _, _;
          repeat split; discriminate
         | intros (f' & b' & H1 & _ & H2 & _ & ->);
           injection H1 as <-; injection H2 as <-; reflexivity]);
    try (intros s H _; injection H as <-; split; reflexivity).
Qed.

Section ParserAndLister.
Import PyStr PyStrFacts.

Lemma collect_images_app (blobs1 blobs2 : list string) (folder_path : string) :
  collect_images (blobs1 ++ blobs2) folder_path
  = collect_images blobs1 folder_path ∪ collect_images blobs2 folder_path.
Proof.
  apply set_eq. intros id.
  rewrite elem_of_union, !collect_images_spec. split.
  - intros (name & Hin & H). apply elem_of_app in Hin as [Hin | Hin];
      [left | right]; exists name; auto.
  - intros [(name & Hin & H) | (name & Hin & H)]; exists name;
      (split; [apply elem_of_app; auto | exact H]).
Qed.

Lemma collect_images_size (blobs : list string) (folder_path : string) :
  (size (collect_images blobs folder_path) <= length blobs)%nat.
Proof.
  induction blobs as [|b blobs IH].
  - change (collect_images [] folder_path) with (∅ : gset string).
    rewrite size_empty. simpl. lia.
  - change (b :: blobs) with ([b] ++ blobs). rewrite collect_images_app.
    etransitivity; [apply (subseteq_size _ (collect_images [b] folder_path
                                             ∪ collect_images blobs folder_path));
                    reflexivity |].
    rewrite size_union_alt.
    assert (size (collect_images [b] folder_path) <= 1)%nat as H1.
    { change (collect_images [b] folder_path)
        with (if endswith_any b IMAGE_EXTENSIONS then
                if negb (String.eqb b folder_path) then
                  {[ basename b ]} ∪ (∅ : gset string)
                else ∅
              else ∅).
      destruct (endswith_any b IMAGE_EXTENSIONS);
        [destruct (negb (String.eqb b folder_path)) |];
        rewrite ?union_empty_r_L, ?size_singleton, ?size_empty; lia. }
    assert (size (collect_images blobs folder_path ∖ collect_images [b] folder_path)
            <= size (collect_images blobs folder_path))%nat as H2.
    { apply subseteq_size. apply subseteq_difference_l. reflexivity. }
    simpl length. lia.
Qed.

(** *** Splitting a joined text *)

Lemma split_sep_free (sep : ascii) (s : string) :
  contains sep s = false -> split sep s = [s].
Proof.
  induction s as [|c s IH]; [reflexivity |].
  simpl contains. intros H. apply orb_false_iff in H as [Hc Hs].
  rewrite split_cons, Hc, (IH Hs). reflexivity.
Qed.

Lemma split_prepend (sep : ascii) (p s : string) :
  contains sep p = false ->
  split sep (p +:+ s)
  = match split sep s with
    | seg :: segs => (p +:+ seg) :: segs
    | [] => [p]
    end.
Proof.
  intros Hp. induction p as [|c p IH].
  - rewrite append_nil_l. destruct (split sep s) eqn:E; [| reflexivity].
    now apply split_not_nil in E.
  - simpl contains in Hp. apply orb_false_iff in Hp as [Hc Hp].
    rewrite append_cons, split_cons, Hc, (IH Hp).
    destruct (split sep s); reflexivity.
Qed.

Lemma split_at_sep (sep : ascii) (a b : string) :
  contains sep a = false ->
  split sep (a +:+ String sep b) = a :: split sep b.
Proof.
  intros Ha. rewrite split_prepend by exact Ha.
  rewrite split_cons, Ascii.eqb_refl. now rewrite append_empty_r.
Qed.

Lemma space_is_no_comma (pad : string) :
  all_space pad = true -> contains "," pad = false.
Proof.
  induction pad as [|c pad IH]; [reflexivity |].
  simpl. intros H. apply andb_true_iff in H as [Hc Hpad].
  rewrite (IH Hpad), orb_false_r.
  destruct (Ascii.eqb_spec c ","%char) as [-> | Hne]; [discriminate | reflexivity].
Qed.

Lemma join_cons2 (sep t t' : string) (rest : list string) :
  join sep (t :: t' :: rest) = t +:+ sep +:+ join sep (t' :: rest).
Proof. reflexivity. Qed.

(** Splitting a comma-joined list of comma-free words, each comma followed by
    the same padding, gives the words back, all but the first padded. *)
Lemma split_join (pad t : string) (rest : list string) :
  contains "," pad = false ->
  Forall (fun tag => contains "," tag = false) (t :: rest) ->
  split "," (join (String "," pad) (t :: rest))
  = t :: List.map (String.append pad) rest.
Proof.
  intros Hpad. revert t. induction rest as [|t' rest IH]; intros t Hall.
  - inversion Hall; subst. now apply split_sep_free.
  - inversion Hall as [|? ? Ht Hrest]; subst.
    rewrite join_cons2, append_cons, split_at_sep by exact Ht.
    rewrite split_prepend by exact Hpad. now rewrite (IH t' Hrest).
Qed.

(** *** Trimming a padded word *)

Lemma lstrip_padded (pad t : string) :
  all_space pad = true -> head_space t = false -> lstrip (pad +:+ t) = t.
Proof.
  intros Hpad Ht. induction pad as [|c pad IH].
  - rewrite append_nil_l. destruct t as [|x t]; [reflexivity |].
    simpl in *. now rewrite Ht.
  - simpl in Hpad. apply andb_true_iff in Hpad as [Hc Hpad].
    rewrite append_cons. simpl. rewrite Hc. auto.
Qed.

Lemma rstrip_trimmed (t : string) : last_space t = false -> rstrip t = t.
Proof.
  induction t as [|c t IH]; [reflexivity |].
  intros H. rewrite rstrip_cons. destruct t as [|x t].
  - simpl in *. now rewrite H.
  - rewrite IH by exact H. reflexivity.
Qed.

Lemma strip_padded (pad t : string) :
  all_space pad = true -> head_space t = false -> last_space t = false ->
  strip (pad +:+ t) = t.
Proof.
  intros Hpad Hh Hl. unfold strip.
  now rewrite lstrip_padded, rstrip_trimmed.
Qed.

Lemma strip_trimmed (t : string) :
  head_space t = false -> last_space t = false -> strip t = t.
Proof. intros Hh Hl. now apply (strip_padded "" t). Qed.

Lemma keep_padded (pad : string) (tags : list string) :
  all_space pad = true -> Forall well_formed_tag tags ->
  List.map strip
    (List.filter (fun tag => truthy (strip tag)) (List.map (String.append pad) tags))
  = tags.
Proof.
  intros Hpad. induction 1 as [|t tags (Hne & _ & Hh & Hl) _ IH]; [reflexivity |].
  cbn [List.map List.filter]. rewrite strip_padded by assumption.
  destruct t as [|c t]; [congruence |].
  cbn [truthy List.map]. rewrite strip_padded by assumption. now rewrite IH.
Qed.

End ParserAndLister.

(** X2. The lister's loop does not depend on the order of the listing nor
    on repetitions in it: two listings with the same names give the same
    identifier set. *)
Theorem collect_images_order_independent (blobs blobs' : list string)
        (folder_path : string) :
  (forall name, name ∈ blobs <-> name ∈ blobs') ->
  collect_images blobs folder_path = collect_images blobs' folder_path.
Proof.
  intros Hsame. apply set_eq. intros id. rewrite !collect_images_spec.
  split; intros (name & Hin & H); exists name; (split; [now apply Hsame | exact H]).
Qed.

Lemma collect_images_order_independent_witness :
  collect_images ["p/a.jpg"; "p/b.png"; "p/a.jpg"] "p/"
  = collect_images ["p/b.png"; "p/a.jpg"] "p/".
Proof.
  apply collect_images_order_independent.
  intros name. rewrite !elem_of_cons, !elem_of_nil. tauto.
Defined.

(** X3. The lister's loop over a listing that arrives in two parts gives
    the union of the two identifier sets, and it never gives more
    identifiers than names listed. *)
Theorem collect_images_pages (blobs1 blobs2 : list string) (folder_path : string) :
  collect_images (blobs1 ++ blobs2) folder_path
  = collect_images blobs1 folder_path ∪ collect_images blobs2 folder_path
  /\ (size (collect_images (blobs1 ++ blobs2) folder_path)
      <= length blobs1 + length blobs2)%nat.
Proof.
  split; [apply collect_images_app |].
  rewrite <- length_app. apply collect_images_size.
Qed.

(** Parsing a comma-joined list of well-formed tags. *)
Lemma extract_tags_of_join (tags : list string) (pad : string) :
  Forall well_formed_tag tags ->
  PyStr.all_space pad = true ->
  extract_tags (Some (PyStr.join (String "," pad) tags)) = tags.
Proof.
  intros Hall Hpad. destruct tags as [|t rest]; [reflexivity |].
  assert (PyStr.truthy (PyStr.join (String "," pad) (t :: rest)) = true) as Htrue.
  { inversion Hall as [|? ? (Hne & _) _]; subst.
    destruct t; [congruence |]. destruct rest; reflexivity. }
  unfold extract_tags. rewrite Htrue.
  rewrite split_join.
  - inversion Hall as [|? ? (Hne & Hc & Hh & Hl) Hrest]; subst.
    cbn [List.map List.filter]. rewrite strip_trimmed by assumption.
    destruct t as [|c t]; [congruence |].
    cbn [PyStr.truthy List.map]. rewrite strip_trimmed by assumption. f_equal.
    now apply keep_padded.
  - now apply space_is_no_comma.
  - eapply Forall_impl; [exact Hall |]. now intros tag (_ & Hc & _).
Qed.

(** X4. Parsing round trip.  A list of well-formed tags (not empty, without
    comma, without white space at either end), joined with commas each
    followed by any run of white space, is parsed back to that very list. *)
Theorem tags_round_trip (tags : list string) (pad : string) :
  Forall well_formed_tag tags ->
  PyStr.all_space pad = true ->
  extract_tags (Some (PyStr.join (String "," pad) tags)) = tags.
Proof. exact (extract_tags_of_join tags pad). Qed.

Lemma tags_round_trip_witness :
  extract_tags (Some (PyStr.join ", " ["red car"; "night"; "rain"]))
  = ["red car"; "night"; "rain"].
Proof.
  apply (tags_round_trip ["red car"; "night"; "rain"] " "); [| reflexivity].
  repeat constructor; discriminate.
Defined.

(** X5. Parsing is stable: the tags of any reply, joined with commas, parse
    to themselves. *)
Theorem extract_tags_stable (text : option string) :
  extract_tags (Some (PyStr.join "," (extract_tags text))) = extract_tags text.
Proof.
  apply (extract_tags_of_join (extract_tags text) ""); [| reflexivity].
  apply extract_tags_clean.
Qed.

(** * The lines and the calls of a run, item by item *)

Section Lines.
Import PyStr PyStrFacts.
Context (cfg : Config) (svc : Services).

Local Abbreviation prefix := (BUCKET_FOLDER_PATH cfg).
Local Abbreviation bucket := (BUCKET_NAME cfg).

Lemma create_outcomes_app (evs1 evs2 : list Event) :
  create_outcomes (evs1 ++ evs2) = create_outcomes evs1 ++ create_outcomes evs2.
Proof. apply omap_app. Qed.

Lemma delete_outcomes_app (evs1 evs2 : list Event) :
  delete_outcomes (evs1 ++ evs2) = delete_outcomes evs1 ++ delete_outcomes evs2.
Proof. apply omap_app. Qed.

Lemma progress_lines_app (evs1 evs2 : list Event) :
  progress_lines (evs1 ++ evs2) = progress_lines evs1 ++ progress_lines evs2.
Proof. apply omap_app. Qed.

Lemma deleting_counts_app (evs1 evs2 : list Event) :
  deleting_counts (evs1 ++ evs2) = deleting_counts evs1 ++ deleting_counts evs2.
Proof. apply omap_app. Qed.

Lemma new_counts_app (evs1 evs2 : list Event) :
  new_counts (evs1 ++ evs2) = new_counts evs1 ++ new_counts evs2.
Proof. apply omap_app. Qed.

Lemma generate_calls_app (evs1 evs2 : list Event) :
  generate_calls (evs1 ++ evs2) = generate_calls evs1 ++ generate_calls evs2.
Proof. apply omap_app. Qed.

Lemma translate_calls_app (evs1 evs2 : list Event) :
  translate_calls (evs1 ++ evs2) = translate_calls evs1 ++ translate_calls evs2.
Proof. apply omap_app. Qed.

Lemma set_calls_app (evs1 evs2 : list Event) :
  set_calls (evs1 ++ evs2) = set_calls evs1 ++ set_calls evs2.
Proof. apply omap_app. Qed.

Lemma delete_calls_app (evs1 evs2 : list Event) :
  delete_calls (evs1 ++ evs2) = delete_calls evs1 ++ delete_calls evs2.
Proof. apply omap_app. Qed.

Lemma download_calls_app (evs1 evs2 : list Event) :
  download_calls (evs1 ++ evs2) = download_calls evs1 ++ download_calls evs2.
Proof. apply omap_app. Qed.

Ltac split_lines :=
  rewrite ?create_outcomes_app, ?delete_outcomes_app, ?progress_lines_app,
    ?deleting_counts_app, ?new_counts_app, ?generate_calls_app,
    ?translate_calls_app, ?set_calls_app, ?delete_calls_app,
    ?download_calls_app.

(** What the pipeline prints and calls: no progress or outcome line, at most
    one model call, a translation only after a model call, no save. *)
Lemma get_image_metadata_lines (path : string) (w : World) :
  exists evs,
    snd (get_image_metadata cfg svc path w)
      = mkWorld (storage w) (images w) (trace w ++ evs) /\
    create_outcomes evs = [] /\ delete_outcomes evs = [] /\
    progress_lines evs = [] /\ deleting_counts evs = [] /\ new_counts evs = [] /\
    set_calls evs = [] /\
    (length (generate_calls evs) <= 1)%nat /\
    (length (translate_calls evs) <= length (generate_calls evs))%nat /\
    match fst (get_image_metadata cfg svc path w) with
    | Ok md => length (generate_calls evs) = 1%nat /\ file_id md = basename path
    | Raise _ => True
    end.
Proof.
  unfold get_image_metadata, download_as_bytes, lift_result, gemini_generate,
    translate_tags, translate_batch, now_isoformat, try_except, bind, ret,
    raise, print, emit.
  simpl. repeat case_match; simplify_eq /=; rewrite <- ?app_assoc; simpl;
    (eexists; split; [reflexivity | repeat split; simpl; auto]).
Qed.

(** One turn of the creation loop, by its lines. *)
Lemma process_one_lines (total i : nat) (id : string) (w : World) :
  exists evs w',
    process_one cfg svc total (i, id) w = (Ok tt, w') /\
    CreateLines cfg total [(i, id)] w w' evs /\
    new_counts evs = [].
Proof.
  pose (path := prefix +:+ id).
  pose (w0 := mkWorld (storage w) (images w)
                      (trace w ++ [Print (LogProcessing i total path)])).
  destruct (get_image_metadata_lines path w0)
    as (evs0 & Hw & Hco & Hdo & Hpl & Hdc & Hnc & Hset & Hg & Ht & Hok).
  assert (process_one cfg svc total (i, id) w =
          try_except
            (let* metadata := get_image_metadata cfg svc path in
             save_metadata_to_firestore svc metadata)
            (fun e => print (LogProcessError path e)) w0) as -> by reflexivity.
  unfold try_except, bind.
  destruct (get_image_metadata cfg svc path w0) as [[md | e] w1];
    simpl in Hw, Hok; subst w1.
  - destruct Hok as (Hgen & Hid).
    unfold save_metadata_to_firestore, document_set, bind, print, emit. simpl.
    destruct (set_error svc _ md) as [e |].
    + exists (Print (LogProcessing i total path)
              :: evs0 ++ [CallSet (file_id md) md; Print (LogProcessError path e)]).
      eexists. split; [reflexivity |].
      split; [| simpl; split_lines; now rewrite Hnc].
      split; simpl; rewrite <- ?app_assoc; try reflexivity; split_lines;
        rewrite ?Hco, ?Hdo, ?Hpl, ?Hdc, ?Hnc, ?Hset; simpl;
        rewrite ?app_nil_r; try reflexivity; try lia.
      * constructor; [right; now exists e | constructor].
      * auto.
    + exists (Print (LogProcessing i total path)
              :: evs0 ++ [CallSet (file_id md) md; Print (LogSaved (file_id md))]).
      eexists. split; [reflexivity |].
      split; [| simpl; split_lines; now rewrite Hnc].
      split; simpl; rewrite <- ?app_assoc; try reflexivity; split_lines;
        rewrite ?Hco, ?Hdo, ?Hpl, ?Hdc, ?Hnc, ?Hset; simpl;
        rewrite ?app_nil_r; try reflexivity; try lia.
      * constructor; [left; now rewrite Hid | constructor].
      * intros k. destruct (decide (k = file_id md)) as [-> | Hne].
        -- right. split; [left |]. rewrite lookup_insert_eq. eauto.
        -- left. now apply lookup_insert_ne.
  - unfold print, emit. simpl.
    exists (Print (LogProcessing i total path)
            :: evs0 ++ [Print (LogProcessError path e)]).
    eexists. split; [reflexivity |].
    split; [| simpl; split_lines; now rewrite Hnc].
    split; simpl; rewrite <- ?app_assoc; try reflexivity; split_lines;
      rewrite ?Hco, ?Hdo, ?Hpl, ?Hdc, ?Hnc, ?Hset; simpl;
      rewrite ?app_nil_r; try reflexivity; try lia.
    + constructor; [right; now exists e | constructor].
    + auto.
Qed.

(** Two stretches of creations in a row, by their lines. *)
Lemma create_lines_app (total : nat) (items1 items2 : list (nat * string))
      (w w1 w2 : World) (evs1 evs2 : list Event) :
  CreateLines cfg total items1 w w1 evs1 ->
  CreateLines cfg total items2 w1 w2 evs2 ->
  CreateLines cfg total (items1 ++ items2) w w2 (evs1 ++ evs2).
Proof.
  intros [T1 P1 O1 D1 C1 S1 G1 R1 K1] [T2 P2 O2 D2 C2 S2 G2 R2 K2].
  split; split_lines; rewrite ?length_app, ?List.map_app; try lia.
  - now rewrite T2, T1, app_assoc.
  - now rewrite P1, P2.
  - now apply Forall2_app.
  - now rewrite D1, D2.
  - now rewrite C1, C2.
  - intros k. destruct (S2 k) as [E2 | [Hin2 K]].
    + destruct (S1 k) as [E1 | [Hin1 K]]; [left; congruence |].
      right. split; [apply elem_of_app; auto | congruence].
    + right. split; [apply elem_of_app; auto | exact K].
Qed.

Lemma create_lines_nil (total : nat) (w : World) : CreateLines cfg total [] w w [].
Proof.
  split; simpl; rewrite ?app_nil_r; try reflexivity; try lia; [constructor | auto].
Qed.

(** The creation loop, by its lines: it announces nothing by itself. *)
Lemma process_loop_lines (total : nat) (ids : list string) (start : nat) (w : World) :
  exists evs w',
    for_each (enumerate ids start) (process_one cfg svc total) w = (Ok tt, w')
    /\ CreateLines cfg total (enumerate ids start) w w' evs
    /\ new_counts evs = [].
Proof.
  revert start w. induction ids as [|id ids IH]; intros start w.
  - exists [], w. split; [reflexivity |]. split; [apply create_lines_nil | reflexivity].
  - destruct (process_one_lines total start id w)
      as (evs1 & w1 & Hrun & Hpost & Hn1).
    destruct (IH (S start) w1) as (evs2 & w2 & Hrest & Hpost2 & Hn2).
    exists (evs1 ++ evs2), w2. simpl enumerate.
    rewrite (for_each_cons _ _ _ _ _ Hrun).
    split; [exact Hrest |]. split.
    + exact (create_lines_app total [(start, id)] _ _ _ _ _ _ Hpost Hpost2).
    + now rewrite new_counts_app, Hn1, Hn2.
Qed.

(** One turn of the deletion loop, by its lines. *)
Lemma delete_one_lines (id : string) (w : World) :
  exists evs w',
    delete_one svc id w = (Ok tt, w') /\ DeleteLines [id] w w' evs
    /\ deleting_counts evs = [].
Proof.
  unfold delete_one, document_delete, try_except, bind, print, emit. simpl.
  destruct (delete_error svc (trace w) id) as [e |]; simpl;
    rewrite <- ?app_assoc; simpl.
  - exists [CallDelete id; Print (LogDeleteError id e)]. eexists.
    split; [reflexivity |]. split; [| reflexivity].
    split; simpl; try reflexivity; [| auto].
    constructor; [right; now exists e | constructor].
  - exists [CallDelete id; Print (LogDeleted id)]. eexists.
    split; [reflexivity |]. split; [| reflexivity].
    split; simpl; try reflexivity.
    + constructor; [now left | constructor].
    + intros k. destruct (decide (k = id)) as [-> | Hne].
      * right. split; [left | apply lookup_delete_eq].
      * left. now apply lookup_delete_ne.
Qed.

Lemma delete_lines_app (l1 l2 : list string) (w w1 w2 : World)
      (evs1 evs2 : list Event) :
  DeleteLines l1 w w1 evs1 -> DeleteLines l2 w1 w2 evs2 ->
  DeleteLines (l1 ++ l2) w w2 (evs1 ++ evs2).
Proof.
  intros [T1 O1 C1 P1 N1 S1] [T2 O2 C2 P2 N2 S2].
  split; split_lines.
  - now rewrite T2, T1, app_assoc.
  - now apply Forall2_app.
  - now rewrite C1, C2.
  - now rewrite P1, P2.
  - now rewrite N1, N2.
  - intros k. destruct (S2 k) as [E2 | [Hin2 K]].
    + destruct (S1 k) as [E1 | [Hin1 K]]; [left; congruence |].
      right. split; [apply elem_of_app; auto | congruence].
    + right. split; [apply elem_of_app; auto | exact K].
Qed.

Lemma delete_loop_lines (ids : list string) (w : World) :
  exists evs w',
    for_each ids (delete_one svc) w = (Ok tt, w') /\ DeleteLines ids w w' evs
    /\ deleting_counts evs = [].
Proof.
  revert w. induction ids as [|id ids IH]; intros w.
  - exists [], w. split; [reflexivity |]. split; [| reflexivity].
    split; simpl; rewrite ?app_nil_r; try reflexivity; [constructor | auto].
  - destruct (delete_one_lines id w) as (evs1 & w1 & Hrun & Hpost & Hc1).
    destruct (IH w1) as (evs2 & w2 & Hrest & Hpost2 & Hc2).
    exists (evs1 ++ evs2), w2. rewrite (for_each_cons _ _ _ _ _ Hrun).
    split; [exact Hrest |]. split.
    + exact (delete_lines_app [id] ids _ _ _ _ _ Hpost Hpost2).
    + now rewrite deleting_counts_app, Hc1, Hc2.
Qed.

Lemma enumerate_snd {A} (xs : list A) (start : nat) :
  List.map snd (enumerate xs start) = xs.
Proof.
  revert start. induction xs as [|x xs IH]; intros start; [reflexivity |].
  simpl. now rewrite IH.
Qed.

Lemma enumerate_length {A} (xs : list A) (start : nat) :
  length (enumerate xs start) = length xs.
Proof. now rewrite <- (enumerate_snd xs start) at 2; rewrite length_map. Qed.

Hypothesis Hiter : iterates_sets svc.

Lemma set_order_empty : set_order svc ∅ = [].
Proof. apply Permutation_nil_r. rewrite (Hiter ∅). now rewrite elements_empty. Qed.

Lemma set_order_length (X : gset string) : length (set_order svc X) = size X.
Proof. now rewrite (Hiter X). Qed.

Lemma set_order_nodup (X : gset string) : NoDup (set_order svc X).
Proof. rewrite (Hiter X). apply NoDup_elements. Qed.

(** Lines 140-149, by their lines. *)
Lemma delete_removed_lines (X : gset string) (w : World) :
  exists evs w',
    delete_removed svc X w = (Ok tt, w') /\
    DeleteLines (set_order svc X) w w' evs /\
    deleting_counts evs = announced_for X.
Proof.
  unfold delete_removed, announced_for.
  destruct (decide (X = ∅)) as [-> | Hne].
  - rewrite set_order_empty. exists [Print LogNoneRemoved]. eexists.
    split; [reflexivity |]. split; [| reflexivity].
    split; simpl; try reflexivity; [constructor | auto].
  - destruct (delete_loop_lines (set_order svc X)
                (snd (print (LogDeleting (size X)) w)))
      as (evs & w' & Hrun & Hpost & Hc).
    exists ([Print (LogDeleting (size X))] ++ evs), w'.
    split; [exact Hrun |]. split.
    + apply (delete_lines_app [] _ w (snd (print (LogDeleting (size X)) w)) w');
        [| exact Hpost].
      split; simpl; try reflexivity; [constructor | auto].
    + rewrite deleting_counts_app, Hc. reflexivity.
Qed.

(** Lines 153-166, by their lines. *)
Lemma process_new_lines (X : gset string) (w : World) :
  exists evs w',
    process_new cfg svc X w = (Ok tt, w') /\
    CreateLines cfg (size X) (enumerate (set_order svc X) 1) w w' evs /\
    new_counts evs = announced_for X.
Proof.
  unfold process_new, announced_for.
  destruct (decide (X = ∅)) as [-> | Hne].
  - rewrite set_order_empty. exists [Print LogNoneNew]. eexists.
    split; [reflexivity |]. split; [| reflexivity].
    split; simpl; try reflexivity; try lia; [constructor | auto].
  - pose (w0 := snd (print (LogNewCount (size X)) w)).
    pose (w1 := snd (print LogProcessingStart w0)).
    destruct (process_loop_lines (size X) (set_order svc X) 1 w1)
      as (evs & w' & Hrun & Hpost & Hc).
    exists ([Print (LogNewCount (size X)); Print LogProcessingStart] ++ evs), w'.
    split; [exact Hrun |]. split.
    + apply (create_lines_app _ [] _ w w1 w'); [| exact Hpost].
      split; simpl; try reflexivity; try lia; [| constructor | auto].
      now rewrite <- app_assoc.
    + rewrite new_counts_app, Hc. reflexivity.
Qed.

(** When both listings succeed, [main] runs the deletion phase, then the
    creation phase, then prints its closing line. *)
Lemma main_phases (w : World) :
  list_blobs_error svc (listing_history w) = None ->
  stream_error svc (stream_history cfg w) = None ->
  exists w1 w2 evs1 evs2,
    main cfg svc w = (Ok tt, after w2 [Print LogDone]) /\
    DeleteLines (set_order svc (stored_ids w ∖ present_ids cfg w))
                (at_reconcile cfg w) w1 evs1 /\
    deleting_counts evs1 = announced_for (stored_ids w ∖ present_ids cfg w) /\
    DeletePost (set_order svc (stored_ids w ∖ present_ids cfg w))
               (at_reconcile cfg w) w1 evs1 /\
    CreateLines cfg (size (present_ids cfg w ∖ stored_ids w))
                (enumerate (set_order svc (present_ids cfg w ∖ stored_ids w)) 1)
                w1 w2 evs2 /\
    new_counts evs2 = announced_for (present_ids cfg w ∖ stored_ids w) /\
    CreatePost cfg (set_order svc (present_ids cfg w ∖ stored_ids w)) w1 w2 evs2.
Proof.
  intros Hl Hs.
  set (toDelete := stored_ids w ∖ present_ids cfg w).
  set (toCreate := present_ids cfg w ∖ stored_ids w).
  destruct (delete_removed_lines toDelete (at_reconcile cfg w))
    as (evs1 & w1 & Hrun1 & Hlines1 & Hc1).
  destruct (delete_removed_run svc Hiter toDelete (at_reconcile cfg w))
    as (evs1' & w1' & Hrun1' & Hpost1).
  rewrite Hrun1 in Hrun1'. injection Hrun1' as <-.
  assert (evs1' = evs1) as ->.
  { apply (app_inv_head (trace (at_reconcile cfg w))).
    now rewrite <- (dp_trace _ _ _ _ Hpost1), <- (dl_trace _ _ _ _ Hlines1). }
  destruct (process_new_lines toCreate w1) as (evs2 & w2 & Hrun2 & Hlines2 & Hc2).
  destruct (process_new_run cfg svc Hiter toCreate w1)
    as (evs2' & w2' & Hrun2' & Hpost2).
  { intros id Hin. apply elem_of_difference in Hin as [Hin _].
    now apply (present_no_slash cfg w). }
  rewrite Hrun2 in Hrun2'. injection Hrun2' as <-.
  assert (evs2' = evs2) as ->.
  { apply (app_inv_head (trace w1)).
    now rewrite <- (cp_trace _ _ _ _ _ Hpost2), <- (cl_trace _ _ _ _ _ _ Hlines2). }
  exists w1, w2, evs1, evs2.
  split; [| auto 10].
  rewrite (main_reaches_reconcile cfg svc w Hl Hs).
  unfold reconcile, bind. fold toDelete toCreate. now rewrite Hrun1, Hrun2.
Qed.

(** The same, with the whole run's events and what each reading of them
    amounts to. *)
Lemma main_readings (w : World) :
  list_blobs_error svc (listing_history w) = None ->
  stream_error svc (stream_history cfg w) = None ->
  exists w1 w2 evs1 evs2 evs w',
    main cfg svc w = (Ok tt, w') /\
    trace w' = trace w ++ evs /\ images w' = images w2 /\
    storage w' = storage w /\
    evs = [Print LogStart; CallListBlobs bucket prefix; CallStream]
          ++ evs1 ++ evs2 ++ [Print LogDone] /\
    (delete_outcomes evs = delete_outcomes evs1 /\
     create_outcomes evs = create_outcomes evs2 /\
     progress_lines evs = progress_lines evs2 /\
     deleting_counts evs = deleting_counts evs1 /\
     new_counts evs = new_counts evs2) /\
    (generate_calls evs = generate_calls evs2 /\
     translate_calls evs = translate_calls evs2 /\
     set_calls evs = set_calls evs2 /\
     delete_calls evs = delete_calls evs1 /\
     download_calls evs = download_calls evs2) /\
    DeleteLines (set_order svc (stored_ids w ∖ present_ids cfg w))
                (at_reconcile cfg w) w1 evs1 /\
    deleting_counts evs1 = announced_for (stored_ids w ∖ present_ids cfg w) /\
    DeletePost (set_order svc (stored_ids w ∖ present_ids cfg w))
               (at_reconcile cfg w) w1 evs1 /\
    CreateLines cfg (size (present_ids cfg w ∖ stored_ids w))
                (enumerate (set_order svc (present_ids cfg w ∖ stored_ids w)) 1)
                w1 w2 evs2 /\
    new_counts evs2 = announced_for (present_ids cfg w ∖ stored_ids w) /\
    CreatePost cfg (set_order svc (present_ids cfg w ∖ stored_ids w)) w1 w2 evs2.
Proof.
  intros Hl Hs.
  destruct (main_phases w Hl Hs)
    as (w1 & w2 & evs1 & evs2 & Hrun & DL & Hdc & DP & CL & Hnc & CP).
  exists w1, w2, evs1, evs2. eexists. eexists.
  split; [exact Hrun |].
  split.
  { unfold after. simpl.
    rewrite (cl_trace _ _ _ _ _ _ CL), (dl_trace _ _ _ _ DL).
    unfold at_reconcile, after. simpl. rewrite <- !app_assoc. reflexivity. }
  split; [reflexivity |].
  split.
  { unfold after. simpl.
    now rewrite (cp_storage _ _ _ _ _ CP), (dp_storage _ _ _ _ DP). }
  split; [reflexivity |].
  pose proof (dl_create_outcomes _ _ _ _ DL) as H1.
  pose proof (dl_progress _ _ _ _ DL) as H2.
  pose proof (dl_new_counts _ _ _ _ DL) as H3.
  pose proof (cl_delete_outcomes _ _ _ _ _ _ CL) as H4.
  pose proof (cl_deleting_counts _ _ _ _ _ _ CL) as H5.
  pose proof (dp_downloads _ _ _ _ DP) as H6.
  pose proof (dp_sets _ _ _ _ DP) as H7.
  pose proof (dp_generates _ _ _ _ DP) as H8.
  pose proof (dp_translates _ _ _ _ DP) as H9.
  pose proof (cp_deletes _ _ _ _ _ CP) as H10.
  split; [| split; [| auto 10]].
  - simpl. split_lines. rewrite H1, H2, H3, H4, H5. simpl.
    rewrite ?app_nil_r. auto.
  - simpl. split_lines. rewrite H6, H7, H8, H9, H10. simpl.
    rewrite ?app_nil_r. auto.
Qed.

(** An outcome in the list belongs to one of the items. *)
Lemma created_as_elem (ids : list string) (outs : list CreateOutcome)
      (o : CreateOutcome) :
  Forall2 (created_as cfg) ids outs -> o ∈ outs ->
  exists id, id ∈ ids /\ created_as cfg id o.
Proof.
  induction 1 as [|id o' ids outs Ho _ IH]; intros Hin; [inversion Hin |].
  apply elem_of_cons in Hin as [-> | Hin].
  - exists id. split; [left | exact Ho].
  - destruct (IH Hin) as (id' & Hid' & H'). exists id'. split; [now right | exact H'].
Qed.

Lemma deleted_as_elem (ids : list string) (outs : list DeleteOutcome)
      (o : DeleteOutcome) :
  Forall2 deleted_as ids outs -> o ∈ outs ->
  exists id, id ∈ ids /\ deleted_as id o.
Proof.
  induction 1 as [|id o' ids outs Ho _ IH]; intros Hin; [inversion Hin |].
  apply elem_of_cons in Hin as [-> | Hin].
  - exists id. split; [left | exact Ho].
  - destruct (IH Hin) as (id' & Hid' & H'). exists id'. split; [now right | exact H'].
Qed.

(** With distinct items, no item has both a failure and a success line. *)
Lemma delete_outcome_exclusive (ids : list string) (outs : list DeleteOutcome)
      (id : string) (e : Exn) :
  Forall2 deleted_as ids outs -> NoDup ids ->
  Deleted id ∈ outs -> DeleteFailed id e ∈ outs -> False.
Proof.
  induction 1 as [|id0 o ids outs Ho Hrest IH]; intros Hnd Hd Hf; [inversion Hd |].
  apply NoDup_cons in Hnd as [Hnotin Hnd].
  apply elem_of_cons in Hd as [Hd | Hd]; apply elem_of_cons in Hf as [Hf | Hf].
  - congruence.
  - subst o. destruct Ho as [Ho | [e' Ho]]; [| discriminate]. injection Ho as ->.
    destruct (deleted_as_elem _ _ _ Hrest Hf) as (id' & Hid' & [H' | [e2 H']]);
      [discriminate |]. injection H' as -> _. contradiction.
  - subst o. destruct Ho as [Ho | [e' Ho]]; [discriminate |]. injection Ho as -> _.
    destruct (deleted_as_elem _ _ _ Hrest Hd) as (id' & Hid' & [H' | [e2 H']]);
      [| discriminate]. injection H' as ->. contradiction.
  - now apply IH.
Qed.

Lemma create_outcome_exclusive (ids : list string) (outs : list CreateOutcome)
      (id : string) (e : Exn) :
  Forall2 (created_as cfg) ids outs -> NoDup ids ->
  (forall x, x ∈ ids -> contains "/" x = false) ->
  id ∈ ids ->
  Saved (basename (prefix +:+ id)) ∈ outs -> Failed (prefix +:+ id) e ∈ outs ->
  False.
Proof.
  induction 1 as [|id0 o ids outs Ho Hrest IH]; intros Hnd Hslash Hid Hs Hf;
    [inversion Hs |].
  apply NoDup_cons in Hnd as [Hnotin Hnd].
  assert (forall x, x ∈ ids -> contains "/" x = false) as Hslash'
    by (intros x Hx; apply Hslash; now right).
  assert (contains "/" id = false) as Hsid by now apply Hslash.
  assert (Saved (basename (prefix +:+ id)) ∈ outs -> id ∈ ids) as Hs_in.
  { intros H. destruct (created_as_elem _ _ _ Hrest H) as (id' & Hid' & [H' | [e' H']]);
      [| discriminate]. injection H' as H'.
    apply (key_inj cfg) in H'; [now subst | exact Hsid | now apply Hslash']. }
  assert (Failed (prefix +:+ id) e ∈ outs -> id ∈ ids) as Hf_in.
  { intros H. destruct (created_as_elem _ _ _ Hrest H) as (id' & Hid' & [H' | [e' H']]);
      [discriminate |]. injection H' as H' _.
    apply append_inv_head in H'. now subst. }
  apply elem_of_cons in Hs as [Hs | Hs]; apply elem_of_cons in Hf as [Hf | Hf].
  - congruence.
  - subst o. destruct Ho as [Ho | [e' Ho]]; [| discriminate]. injection Ho as Ho.
    apply (key_inj cfg) in Ho; [| exact Hsid | apply Hslash; left].
    subst id0. auto.
  - subst o. destruct Ho as [Ho | [e' Ho]]; [discriminate |]. injection Ho as Ho _.
    apply append_inv_head in Ho. subst id0. auto.
  - apply IH; auto.
Qed.

Lemma printed_delete_failure (evs : list Event) (id : string) (e : Exn) :
  Print (LogDeleteError id e) ∈ evs -> DeleteFailed id e ∈ delete_outcomes evs.
Proof.
  intros Hin. apply list_elem_of_omap. now exists (Print (LogDeleteError id e)).
Qed.

Lemma printed_create_failure (evs : list Event) (p : string) (e : Exn) :
  Print (LogProcessError p e) ∈ evs -> Failed p e ∈ create_outcomes evs.
Proof.
  intros Hin. apply list_elem_of_omap. now exists (Print (LogProcessError p e)).
Qed.

(** The creation phase leaves alone every key that is no identifier of the
    bucket. *)
Lemma creation_spares_foreign_keys (w0 w1 w2 : World) (X : gset string)
      (evs : list Event) (k : string) :
  storage w1 = storage w0 ->
  X ⊆ present_ids cfg w0 ->
  CreatePost cfg (set_order svc X) w1 w2 evs ->
  k ∉ present_ids cfg w0 ->
  images w2 !! k = images w1 !! k.
Proof.
  intros Hst HX CP Hk.
  destruct (cp_frame _ _ _ _ _ CP k) as [E | (md & Hin & _)]; [exact E |].
  destruct (cp_sets _ _ _ _ _ CP k md Hin) as (id & Hid & -> & _ & _ & Hobj).
  exfalso. apply Hk. apply saved_key_present.
  - apply HX. now apply set_order_elem in Hid.
  - now rewrite <- Hst.
Qed.

(** What the outcome lines of a run say, and what they mean for the store. *)
Lemma main_outcomes (w : World) :
  list_blobs_error svc (listing_history w) = None ->
  stream_error svc (stream_history cfg w) = None ->
  exists w' evs,
    main cfg svc w = (Ok tt, w') /\
    trace w' = trace w ++ evs /\
    storage w' = storage w /\
    Forall2 deleted_as (set_order svc (stored_ids w ∖ present_ids cfg w))
            (delete_outcomes evs) /\
    Forall2 (created_as cfg) (set_order svc (present_ids cfg w ∖ stored_ids w))
            (create_outcomes evs) /\
    (forall id, Deleted id ∈ delete_outcomes evs -> images w' !! id = None) /\
    (forall id e, DeleteFailed id e ∈ delete_outcomes evs ->
       is_Some (images w !! id) /\ images w' !! id = images w !! id) /\
    (forall k, Saved k ∈ create_outcomes evs ->
       exists id md, id ∈ present_ids cfg w ∖ stored_ids w
                     /\ k = basename (prefix +:+ id)
                     /\ images w' !! k = Some md
                     /\ file_name md = prefix +:+ id) /\
    (forall p e, Failed p e ∈ create_outcomes evs ->
       exists id, id ∈ present_ids cfg w ∖ stored_ids w /\ p = prefix +:+ id
                  /\ (folder_like prefix = true -> images w' !! id = None)).
Proof.
  intros Hl Hs.
  destruct (main_readings w Hl Hs)
    as (w1 & w2 & evs1 & evs2 & evs & w' & Hrun & Htr & Him & Hsto & _
        & (Hdo & Hco & _) & _ & DL & _ & DP & CL & _ & CP).
  set (toDelete := stored_ids w ∖ present_ids cfg w) in *.
  set (toCreate := present_ids cfg w ∖ stored_ids w) in *.
  pose proof (dl_outcomes _ _ _ _ DL) as Hdel.
  pose proof (cl_outcomes _ _ _ _ _ _ CL) as Hcre.
  rewrite enumerate_snd in Hcre.
  assert (storage w1 = storage w) as Hst1 by apply (dp_storage _ _ _ _ DP).
  assert (forall k, k ∉ present_ids cfg w -> images w2 !! k = images w1 !! k)
    as Hspare.
  { intros k Hk.
    apply (creation_spares_foreign_keys w w1 w2 toCreate evs2 k); auto.
    intros x Hx. now apply elem_of_difference in Hx as [Hx _]. }
  assert (forall x, x ∈ set_order svc toCreate -> contains "/" x = false) as Hslash.
  { intros x Hx. apply set_order_elem in Hx; [| exact Hiter].
    apply elem_of_difference in Hx as [Hx _]. now apply (present_no_slash cfg w). }
  exists w', evs. rewrite Hdo, Hco, Him.
  split; [exact Hrun |]. split; [exact Htr |].
  split; [exact Hsto |].
  split; [exact Hdel |]. split; [exact Hcre |].
  split; [| split; [| split]].
  - intros id Hin.
    destruct (deleted_as_elem _ _ _ Hdel Hin) as (id' & Hid' & [H' | [e' H']]);
      [| discriminate]. injection H' as <-.
    assert (id ∉ present_ids cfg w) as Hnp.
    { apply set_order_elem in Hid'; [| exact Hiter].
      now apply elem_of_difference in Hid' as [_ ?]. }
    rewrite (Hspare id Hnp).
    destruct (dp_done _ _ _ _ DP id Hid') as [[e He] | N]; [| exact N].
    exfalso. apply printed_delete_failure in He.
    exact (delete_outcome_exclusive _ _ id e Hdel (set_order_nodup _) Hin He).
  - intros id e Hin.
    destruct (deleted_as_elem _ _ _ Hdel Hin) as (id' & Hid' & [H' | [e' H']]);
      [discriminate |]. injection H' as <- _.
    pose proof Hid' as Hset. apply set_order_elem in Hset; [| exact Hiter].
    apply elem_of_difference in Hset as [Hstored Hnp].
    split; [now apply elem_of_dom |].
    rewrite (Hspare id Hnp).
    destruct (dl_store _ _ _ _ DL id) as [E | [Hd _]]; [exact E |].
    exfalso.
    exact (delete_outcome_exclusive _ _ id e Hdel (set_order_nodup _) Hd Hin).
  - intros k Hin.
    destruct (created_as_elem _ _ _ Hcre Hin) as (id & Hid & [H' | [e' H']]);
      [| discriminate]. injection H' as ->.
    exists id.
    destruct (cp_done _ _ _ _ _ CP id Hid) as [[e He] | (md & K & N & _)].
    + exfalso. apply printed_create_failure in He.
      exact (create_outcome_exclusive _ _ id e Hcre (set_order_nodup _)
               Hslash Hid Hin He).
    + exists md. split; [now apply set_order_elem in Hid |]. auto.
  - intros p e Hin.
    destruct (created_as_elem _ _ _ Hcre Hin) as (id & Hid & [H' | [e' H']]);
      [discriminate |]. injection H' as -> _.
    pose proof Hid as Hset. apply set_order_elem in Hset; [| exact Hiter].
    exists id. split; [exact Hset |]. split; [reflexivity |].
    intros Hfl. apply elem_of_difference in Hset as [Hpres Hnst].
    assert (images w1 !! id = None) as N1.
    { destruct (dl_store _ _ _ _ DL id) as [E | [_ N]]; [| exact N].
      rewrite E. now apply not_elem_of_dom. }
    destruct (cl_store _ _ _ _ _ _ CL id) as [E | [Hsv _]]; [congruence |].
    exfalso.
    rewrite <- (key_of_folder_like cfg id Hfl) in Hsv
      by now apply (present_no_slash cfg w).
    exact (create_outcome_exclusive _ _ id e Hcre (set_order_nodup _)
             Hslash Hid Hsv Hin).
Qed.

End Lines.

(** * What a run prints, calls and leaves behind *)

(** X6. Once both listings have succeeded, the run prints exactly one
    outcome line per item, in the order the items are visited: for every
    stale record either the line of a deletion or that of a failed deletion,
    for every new picture either the line of a save or that of a failure. *)
Theorem one_outcome_per_item (cfg : Config) (svc : Services) (w : World) :
  iterates_sets svc ->
  list_blobs_error svc (listing_history w) = None ->
  stream_error svc (stream_history cfg w) = None ->
  exists w' evs,
    main cfg svc w = (Ok tt, w') /\
    trace w' = trace w ++ evs /\
    Forall2 deleted_as (set_order svc (stored_ids w ∖ present_ids cfg w))
            (delete_outcomes evs) /\
    Forall2 (created_as cfg) (set_order svc (present_ids cfg w ∖ stored_ids w))
            (create_outcomes evs).
Proof.
  intros Hiter Hl Hs.
  destruct (main_outcomes cfg svc Hiter w Hl Hs)
    as (w' & evs & Hrun & Htr & _ & Hdel & Hcre & _).
  exists w', evs. auto.
Qed.

Lemma one_outcome_per_item_witness :
  exists w' evs,
    main Demo.cfg Demo.flaky Demo.two_new = (Ok tt, w') /\
    trace w' = trace Demo.two_new ++ evs /\
    delete_outcomes evs
    = [DeleteFailed "c.jpg" (ServiceError "deadline"); Deleted "e.jpg"] /\
    create_outcomes evs
    = [Failed "photos/a.jpg" (ServiceError "blocked"); Saved "d.jpg"].
Proof.
  destruct (one_outcome_per_item Demo.cfg Demo.flaky Demo.two_new)
    as (w' & evs & Hrun & Htr & _);
    [intros X; reflexivity | reflexivity | reflexivity |].
  exists w', evs. do 2 (split; [assumption |]).
  assert (w' = Cases.two_new_after) as Hw
    by (unfold Cases.two_new_after; now rewrite Hrun).
  assert (evs = trace w') as -> by now rewrite Htr.
  subst w'. split; vm_compute; reflexivity.
Defined.

(** X7. The outcome lines tell the truth about the store.  After a run in
    which both listings succeeded: a record reported deleted is gone; a
    record whose deletion is reported failed is there as it was; a key
    reported saved holds a record naming the path that was fetched; and,
    with a folder-like prefix, a picture reported failed has no record. *)
Theorem outcome_lines_match_store (cfg : Config) (svc : Services) (w : World) :
  iterates_sets svc ->
  list_blobs_error svc (listing_history w) = None ->
  stream_error svc (stream_history cfg w) = None ->
  exists w' evs,
    main cfg svc w = (Ok tt, w') /\
    trace w' = trace w ++ evs /\
    (forall id, Deleted id ∈ delete_outcomes evs -> images w' !! id = None) /\
    (forall id e, DeleteFailed id e ∈ delete_outcomes evs ->
       is_Some (images w !! id) /\ images w' !! id = images w !! id) /\
    (forall k, Saved k ∈ create_outcomes evs ->
       exists id md, id ∈ present_ids cfg w ∖ stored_ids w
                     /\ k = PyStr.basename (BUCKET_FOLDER_PATH cfg +:+ id)
                     /\ images w' !! k = Some md
                     /\ file_name md = BUCKET_FOLDER_PATH cfg +:+ id) /\
    (forall p e, Failed p e ∈ create_outcomes evs ->
       exists id, id ∈ present_ids cfg w ∖ stored_ids w
                  /\ p = BUCKET_FOLDER_PATH cfg +:+ id
                  /\ (folder_like (BUCKET_FOLDER_PATH cfg) = true ->
                      images w' !! id = None)).
Proof.
  intros Hiter Hl Hs.
  destruct (main_outcomes cfg svc Hiter w Hl Hs)
    as (w' & evs & Hrun & Htr & _ & _ & _ & H).
  exists w', evs. auto.
Qed.

Lemma outcome_lines_match_store_witness :
  exists w' evs,
    main Demo.cfg Demo.flaky Demo.two_new = (Ok tt, w') /\
    trace w' = trace Demo.two_new ++ evs /\
    images w' !! "e.jpg" = None /\
    images w' !! "c.jpg" = images Demo.two_new !! "c.jpg" /\
    is_Some (images w' !! "d.jpg") /\
    images w' !! "a.jpg" = None.
Proof.
  destruct (outcome_lines_match_store Demo.cfg Demo.flaky Demo.two_new)
    as (w' & evs & Hrun & Htr & Hdel & Hkept & Hsaved & Hfailed);
    [intros X; reflexivity | reflexivity | reflexivity |].
  exists w', evs. do 2 (split; [assumption |]).
  assert (w' = Cases.two_new_after) as Hw
    by (unfold Cases.two_new_after; now rewrite Hrun).
  assert (evs = trace w') as Hevs by now rewrite Htr.
  assert (delete_outcomes evs
          = [DeleteFailed "c.jpg" (ServiceError "deadline"); Deleted "e.jpg"])
    as Hdo by (rewrite Hevs, Hw; vm_compute; reflexivity).
  assert (create_outcomes evs
          = [Failed "photos/a.jpg" (ServiceError "blocked"); Saved "d.jpg"])
    as Hco by (rewrite Hevs, Hw; vm_compute; reflexivity).
  rewrite Hdo in Hdel, Hkept. rewrite Hco in Hsaved, Hfailed.
  split; [apply Hdel; right; left |].
  split; [apply (Hkept "c.jpg" (ServiceError "deadline")); left |].
  split.
  - destruct (Hsaved "d.jpg") as (id & md & _ & _ & Hmd & _); [right; left |].
    rewrite Hmd. eauto.
  - destruct (Hfailed "photos/a.jpg" (ServiceError "blocked"))
      as (id & _ & Hp & Hnone); [left |].
    apply (PyStrFacts.append_inv_head "photos/" "a.jpg" id) in Hp. subst id.
    now apply Hnone.
Defined.

(** X8. The counts a run announces are the numbers of items it attempts:
    the deletion count is printed only when there is something to delete
    and equals the number of delete calls; likewise for new pictures and
    fetches; and the progress lines count from 1 to that number, each
    naming the path it fetches. *)
Theorem announced_counts_and_progress (cfg : Config) (svc : Services)
        (w : World) :
  iterates_sets svc ->
  list_blobs_error svc (listing_history w) = None ->
  stream_error svc (stream_history cfg w) = None ->
  exists w' evs,
    main cfg svc w = (Ok tt, w') /\
    trace w' = trace w ++ evs /\
    deleting_counts evs = announced_for (stored_ids w ∖ present_ids cfg w) /\
    new_counts evs = announced_for (present_ids cfg w ∖ stored_ids w) /\
    length (delete_calls evs) = size (stored_ids w ∖ present_ids cfg w) /\
    length (download_calls evs) = size (present_ids cfg w ∖ stored_ids w) /\
    progress_lines evs
    = List.map (fun it : nat * string =>
                  (fst it, size (present_ids cfg w ∖ stored_ids w),
                   BUCKET_FOLDER_PATH cfg +:+ snd it))
               (enumerate (set_order svc (present_ids cfg w ∖ stored_ids w)) 1).
Proof.
  intros Hiter Hl Hs.
  destruct (main_readings cfg svc Hiter w Hl Hs)
    as (w1 & w2 & evs1 & evs2 & evs & w' & Hrun & Htr & _ & _ & _
        & (_ & _ & Hpl & Hdc & Hnc) & (_ & _ & _ & Hdel & Hdl)
        & DL & Hann1 & DP & CL & Hann2 & CP).
  exists w', evs. do 2 (split; [assumption |]).
  rewrite Hdc, Hnc, Hdel, Hdl, Hpl.
  split; [exact Hann1 |]. split; [exact Hann2 |].
  split; [rewrite (dp_deletes _ _ _ _ DP); now apply set_order_length |].
  split; [| apply CL].
  rewrite (cp_downloads _ _ _ _ _ CP), length_map. now apply set_order_length.
Qed.

Lemma announced_counts_and_progress_witness :
  exists w' evs,
    main Demo.cfg Demo.flaky Demo.two_new = (Ok tt, w') /\
    trace w' = trace Demo.two_new ++ evs /\
    deleting_counts evs = [2%nat] /\ new_counts evs = [2%nat] /\
    length (delete_calls evs) = 2%nat /\ length (download_calls evs) = 2%nat /\
    progress_lines evs
    = [(1%nat, 2%nat, "photos/a.jpg"); (2%nat, 2%nat, "photos/d.jpg")].
Proof.
  destruct (announced_counts_and_progress Demo.cfg Demo.flaky Demo.two_new)
    as (w' & evs & Hrun & Htr & _);
    [intros X; reflexivity | reflexivity | reflexivity |].
  exists w', evs. do 2 (split; [assumption |]).
  assert (w' = Cases.two_new_after) as Hw
    by (unfold Cases.two_new_after; now rewrite Hrun).
  assert (evs = trace w') as -> by now rewrite Htr.
  subst w'. repeat split; vm_compute; reflexivity.
Defined.

(** X10. Every deletion is issued before the first picture is fetched:
    the events of a run split into a first part that holds all the delete
    calls and no fetch, model call, translation or save, and a second part
    without delete call. *)
Theorem deletions_precede_creations (cfg : Config) (svc : Services)
        (w : World) :
  iterates_sets svc ->
  list_blobs_error svc (listing_history w) = None ->
  stream_error svc (stream_history cfg w) = None ->
  exists w' first second,
    main cfg svc w = (Ok tt, w') /\
    trace w' = trace w ++ first ++ second /\
    delete_calls first ≡ₚ elements (stored_ids w ∖ present_ids cfg w) /\
    download_calls first = [] /\ generate_calls first = [] /\
    translate_calls first = [] /\ set_calls first = [] /\
    delete_calls second = [] /\
    download_calls second
    ≡ₚ List.map (String.append (BUCKET_FOLDER_PATH cfg))
                (elements (present_ids cfg w ∖ stored_ids w)).
Proof.
  intros Hiter Hl Hs.
  destruct (main_readings cfg svc Hiter w Hl Hs)
    as (w1 & w2 & evs1 & evs2 & evs & w' & Hrun & Htr & _ & _ & Hevs
        & _ & _ & _ & _ & DP & _ & _ & CP).
  exists w',
    ([Print LogStart; CallListBlobs (BUCKET_NAME cfg) (BUCKET_FOLDER_PATH cfg);
      CallStream] ++ evs1),
    (evs2 ++ [Print LogDone]).
  split; [exact Hrun |].
  split; [now rewrite Htr, Hevs, <- !app_assoc |].
  destruct DP as [_ _ D L C G R _ _]. destruct CP as [_ _ L2 D2 _ _ _].
  simpl. rewrite D, L, C, G, R.
  rewrite (delete_calls_app evs2), (download_calls_app evs2), D2, L2. simpl.
  rewrite app_nil_r.
  split; [apply Hiter |]. do 5 (split; [reflexivity |]).
  now rewrite (Hiter (present_ids cfg w ∖ stored_ids w)).
Qed.

Lemma deletions_precede_creations_witness :
  exists w' first second,
    main Demo.cfg Demo.reliable Demo.scenario = (Ok tt, w') /\
    trace w' = trace Demo.scenario ++ first ++ second /\
    delete_calls first = ["c.jpg"] /\
    download_calls first = [] /\
    delete_calls second = [] /\
    download_calls second = ["photos/a.jpg"].
Proof.
  destruct (deletions_precede_creations Demo.cfg Demo.reliable Demo.scenario)
    as (w' & first & second & Hrun & Htr & Hd & Hl & _ & _ & _ & Hd2 & Hl2);
    [intros X; reflexivity | reflexivity | reflexivity |].
  exists w', first, second. do 2 (split; [assumption |]).
  assert (elements (stored_ids Demo.scenario ∖ present_ids Demo.cfg Demo.scenario)
          = ["c.jpg"]) as E1 by (vm_compute; reflexivity).
  assert (elements (present_ids Demo.cfg Demo.scenario ∖ stored_ids Demo.scenario)
          = ["a.jpg"]) as E2 by (vm_compute; reflexivity).
  rewrite E1 in Hd. rewrite E2 in Hl2.
  apply Permutation_singleton_r in Hd. apply Permutation_singleton_r in Hl2.
  auto.
Defined.

(** X11. A picture that failed is tried again by the next run.  With a
    folder-like prefix, if a run reports a failure for the path of a new
    picture, then the next run over the same bucket, once its two listings
    have succeeded, fetches that path again, whatever the collaborators
    answer this time. *)
Theorem failed_item_is_retried (cfg : Config) (svc svc' : Services)
        (w w1 : World) (evs1 : list Event) (id : string) (e : Exn) :
  iterates_sets svc -> iterates_sets svc' ->
  folder_like (BUCKET_FOLDER_PATH cfg) = true ->
  main cfg svc w = (Ok tt, w1) ->
  trace w1 = trace w ++ evs1 ->
  Failed (BUCKET_FOLDER_PATH cfg +:+ id) e ∈ create_outcomes evs1 ->
  list_blobs_error svc' (listing_history w1) = None ->
  stream_error svc' (stream_history cfg w1) = None ->
  exists w2 evs2,
    main cfg svc' w1 = (Ok tt, w2) /\
    trace w2 = trace w1 ++ evs2 /\
    BUCKET_FOLDER_PATH cfg +:+ id ∈ download_calls evs2.
Proof.
  intros Hiter Hiter' Hfl Hmain Htr Hfail Hl2 Hs2.
  assert (id ∈ present_ids cfg w ∖ stored_ids w /\ images w1 !! id = None
          /\ storage w1 = storage w) as (Hnew & Hnone & Hsto).
  { destruct (main_outcome cfg svc Hiter w)
      as [(e0 & _ & Hrun) | [(e0 & _ & _ & Hrun) | (Hl & Hs & _)]].
    - rewrite Hrun in Hmain. discriminate.
    - rewrite Hrun in Hmain. injection Hmain as <-.
      unfold after in Htr. simpl in Htr. apply app_inv_head in Htr. subst evs1.
      inversion Hfail.
    - destruct (main_outcomes cfg svc Hiter w Hl Hs)
        as (w' & evs & Hrun & Htr' & Hst & _ & _ & _ & _ & _ & Hfailed).
      rewrite Hrun in Hmain. injection Hmain as ->.
      rewrite Htr' in Htr. apply app_inv_head in Htr. subst evs.
      destruct (Hfailed _ _ Hfail) as (id' & Hid' & Hp & Hnone).
      apply PyStrFacts.append_inv_head in Hp. subst id'. auto. }
  destruct (main_reconciled cfg svc' Hiter' w1 Hl2 Hs2)
    as (w2 & evs2 & Hrun2 & R).
  exists w2, evs2. split; [exact Hrun2 |]. split; [apply R |].
  rewrite (rc_downloads _ _ _ _ _ _ R).
  apply list_elem_of_In, in_map, list_elem_of_In, elem_of_elements.
  rewrite (present_ids_storage cfg w w1 Hsto).
  apply elem_of_difference in Hnew as [Hp _].
  apply elem_of_difference. split; [exact Hp |].
  now apply not_elem_of_dom.
Qed.

(** The picture a.jpg, rejected by the [flaky] model, is fetched again by a
    second run. *)
Lemma failed_item_is_retried_witness :
  exists w2 evs2,
    main Demo.cfg Demo.reliable Cases.two_new_after = (Ok tt, w2) /\
    trace w2 = trace Cases.two_new_after ++ evs2 /\
    "photos/a.jpg" ∈ download_calls evs2.
Proof.
  apply (failed_item_is_retried Demo.cfg Demo.flaky Demo.reliable Demo.two_new
           Cases.two_new_after (trace Cases.two_new_after) "a.jpg"
           (ServiceError "blocked")).
  - intros X. reflexivity.
  - intros X. reflexivity.
  - reflexivity.
  - apply run_returns. vm_compute. reflexivity.
  - reflexivity.
  - vm_compute. left.
  - reflexivity.
  - reflexivity.
Defined.

(** X12. A run keeps the keys of the store within bounds, whatever the
    collaborators answer and however it ends: every key it leaves was there
    before or is an identifier of the bucket, and a key that was there and
    is an identifier of the bucket is still there. *)
Theorem run_keeps_keys_in_bounds (cfg : Config) (svc : Services) (w w' : World)
        (r : Result unit) :
  iterates_sets svc ->
  main cfg svc w = (r, w') ->
  (forall k, k ∈ stored_ids w' -> k ∈ stored_ids w \/ k ∈ present_ids cfg w) /\
  (forall k, k ∈ stored_ids w -> k ∈ present_ids cfg w -> k ∈ stored_ids w').
Proof.
  intros Hiter Hmain. unfold stored_ids.
  destruct (main_outcome cfg svc Hiter w)
    as [(e & _ & Hrun) | [(e & _ & _ & Hrun) | (_ & _ & w2 & evs & Hrun & R)]];
    rewrite Hrun in Hmain; injection Hmain as <- <-; [auto | auto |].
  destruct R as [_ _ _ _ C F _ _ _]. split.
  - intros k Hk. apply elem_of_dom in Hk as [md Hk].
    destruct (F k) as [E | [[_ N] | (md' & Hin & _)]]; [| congruence |].
    + left. apply elem_of_dom. rewrite <- E. eauto.
    + right. destruct (C k md' Hin) as (id & Hid & -> & _ & _ & Hobj).
      apply elem_of_difference in Hid as [Hid _].
      now apply saved_key_present.
  - intros k Hk Hp. apply elem_of_dom.
    destruct (F k) as [E | [[Hin _] | (md' & _ & K)]].
    + rewrite E. now apply elem_of_dom.
    + apply elem_of_difference in Hin as [_ Hin]. contradiction.
    + rewrite K. eauto.
Qed.

Lemma run_keeps_keys_in_bounds_witness :
  (forall k, k ∈ stored_ids Cases.two_new_after ->
             k ∈ stored_ids Demo.two_new \/ k ∈ present_ids Demo.cfg Demo.two_new) /\
  (forall k, k ∈ stored_ids Demo.two_new -> k ∈ present_ids Demo.cfg Demo.two_new ->
             k ∈ stored_ids Cases.two_new_after).
Proof.
  apply (run_keeps_keys_in_bounds Demo.cfg Demo.flaky Demo.two_new
           Cases.two_new_after
           (fst (main Demo.cfg Demo.flaky Demo.two_new))).
  - intros X. reflexivity.
  - apply surjective_pairing.
Defined.

(** X13. A run keeps the store well keyed: if every record sits under its
    own [file_id] and that is the basename of its [file_name], the same
    holds after the run, whatever the collaborators answer. *)
Theorem run_keeps_store_well_keyed (cfg : Config) (svc : Services)
        (w w' : World) (r : Result unit) :
  iterates_sets svc ->
  well_keyed w ->
  main cfg svc w = (r, w') ->
  well_keyed w'.
Proof.
  intros Hiter Hwk Hmain.
  destruct (main_outcome cfg svc Hiter w)
    as [(e & _ & Hrun) | [(e & _ & _ & Hrun) | (_ & _ & w2 & evs & Hrun & R)]];
    rewrite Hrun in Hmain; injection Hmain as <- <-; [exact Hwk | exact Hwk |].
  destruct R as [_ _ _ _ C F _ _ _]. intros k md Hk.
  destruct (F k) as [E | [[_ N] | (md' & Hin & K)]]; [| congruence |].
  - apply Hwk. congruence.
  - assert (md' = md) as -> by congruence.
    destruct (C k md Hin) as (id & _ & Hkey & Hname & Hfid & _).
    split; [exact Hfid |]. congruence.
Qed.

Lemma run_keeps_store_well_keyed_witness : well_keyed Cases.two_new_after.
Proof.
  apply (run_keeps_store_well_keyed Demo.cfg Demo.flaky Demo.two_new
           Cases.two_new_after (fst (main Demo.cfg Demo.flaky Demo.two_new))).
  - intros X. reflexivity.
  - intros k md Hk.
    destruct (decide (k = "c.jpg")) as [-> | Hc];
      [| destruct (decide (k = "e.jpg")) as [-> | He]].
    + vm_compute in Hk. injection Hk as <-. split; reflexivity.
    + vm_compute in Hk. injection Hk as <-. split; reflexivity.
    + unfold Demo.two_new in Hk. simpl in Hk.
      rewrite lookup_insert_ne, lookup_singleton_ne in Hk by congruence.
      discriminate.
  - apply surjective_pairing.
Defined.

(** X14. The only exception that leaves [main] is a failure of the bucket
    listing: [main] raises exactly when that listing raises, with the same
    exception, and then it has printed its first line and issued that one
    call, the store has not been asked anything and nothing has changed. *)
Theorem main_raises_only_on_listing_failure (cfg : Config) (svc : Services)
        (w : World) (e : Exn) :
  iterates_sets svc ->
  (fst (main cfg svc w) = Raise e
   <-> list_blobs_error svc (listing_history w) = Some e) /\
  (list_blobs_error svc (listing_history w) = Some e ->
   main cfg svc w
   = (Raise e, after w [Print LogStart;
                        CallListBlobs (BUCKET_NAME cfg) (BUCKET_FOLDER_PATH cfg)])).
Proof.
  intros Hiter. split; [| apply main_listing_fails].
  destruct (main_outcome cfg svc Hiter w)
    as [(e0 & Hl & Hrun) | [(e0 & Hl & _ & Hrun) | (Hl & _ & w2 & evs & Hrun & _)]];
    rewrite Hrun, Hl; simpl; split; congruence.
Qed.

Lemma main_raises_only_on_listing_failure_witness :
  main Demo.cfg Cases.bucket_down Demo.scenario
  = (Raise (ServiceError "forbidden"),
     after Demo.scenario [Print LogStart; CallListBlobs "acervo" "photos/"]).
Proof.
  apply (main_raises_only_on_listing_failure Demo.cfg Cases.bucket_down
           Demo.scenario (ServiceError "forbidden"));
    [intros X; reflexivity | reflexivity].
Defined.

(** * The pipeline, one picture at a time *)

Ltac unfold_pipeline :=
  unfold process_one, save_metadata_to_firestore, get_image_metadata,
    download_as_bytes, lift_result, gemini_generate, translate_tags,
    translate_batch, now_isoformat, document_set, try_except, bind, ret,
    raise, print, emit.

Ltac in_concrete_list :=
  repeat match goal with
    | H : _ ∈ [] |- _ => inversion H
    | H : _ ∈ _ :: _ |- _ => apply elem_of_cons in H as [H | H]
    end.

(** X15. Data flow of the pipeline.  [get_image_metadata] changes neither
    the store nor the bucket and issues exactly one fetch, for the path it
    was given, and no delete or save.  The picture handed to the model is
    the decoded content of the object at that path; the list handed to the
    translator is not empty and is the parsed reply of the model; the
    record returned carries the basename of the path as [file_id], the path
    as [file_name], the parsed reply as [tags_en] and the clock as
    [processed_at]. *)
Theorem pipeline_data_flow (cfg : Config) (svc : Services) (path : string)
        (w w' : World) (r : Result Metadata) :
  get_image_metadata cfg svc path w = (r, w') ->
  images w' = images w /\ storage w' = storage w /\
  exists evs,
    trace w' = trace w ++ evs /\
    download_calls evs = [path] /\ delete_calls evs = [] /\ set_calls evs = [] /\
    (forall img, img ∈ generate_calls evs ->
       exists content, storage w (BUCKET_NAME cfg) !! path = Some content
                       /\ image_open svc content = Ok img) /\
    (forall values, values ∈ translate_calls evs ->
       values <> [] /\
       exists img h reply, img ∈ generate_calls evs
                           /\ generate_content svc h img = Ok reply
                           /\ values = extract_tags reply) /\
    (forall md, r = Ok md ->
       file_id md = PyStr.basename path /\ file_name md = path /\
       processed_at md = utc_now_isoformat svc (trace w') /\
       exists img h reply, generate_calls evs = [img]
                           /\ generate_content svc h img = Ok reply
                           /\ tags_en md = extract_tags reply).
Proof.
  unfold_pipeline. simpl. intros H.
  repeat case_match; simplify_eq /=; rewrite <- ?app_assoc; simpl;
    (split; [reflexivity |]); (split; [reflexivity |]);
    (eexists; split; [reflexivity |]); simpl;
    (do 3 (split; [reflexivity |])); (split; [| split]);
    intros; in_concrete_list; simplify_eq /=; eauto 10;
    try (split; [congruence | eauto 10]).
  all: repeat split; eauto 10.
  all: try congruence.
  all: eexists _, _, _; split; [left | split; [eassumption | congruence]].
Qed.

Lemma pipeline_data_flow_witness :
  exists md w',
    get_image_metadata Demo.cfg Demo.reliable "photos/a.jpg" Demo.scenario
    = (Ok md, w') /\
    images w' = images Demo.scenario /\
    file_id md = "a.jpg" /\ file_name md = "photos/a.jpg" /\
    processed_at md = "2024-05-01T12:00:00+00:00".
Proof.
  pose (run := get_image_metadata Demo.cfg Demo.reliable "photos/a.jpg"
                                  Demo.scenario).
  assert (exists md, run = (Ok md, snd run)) as (md & Hrun)
    by (eexists; vm_compute; reflexivity).
  destruct (pipeline_data_flow Demo.cfg Demo.reliable "photos/a.jpg"
              Demo.scenario (snd run) (Ok md) Hrun)
    as (Him & _ & evs & _ & _ & _ & _ & _ & _ & Hmd).
  destruct (Hmd md eq_refl) as (Hid & Hname & Hstamp & _).
  exists md, (snd run). auto.
Defined.



(** X17. A new identifier whose rebuilt path names no object costs one
    fetch and nothing else: the turn prints the progress line, issues the
    fetch, prints the failure line and leaves the store alone; no model
    call is made; and unless the transport itself failed the exception
    reported is the missing object. *)
Theorem missing_object_is_not_found (cfg : Config) (svc : Services)
        (total i : nat) (id : string) (w : World) :
  storage w (BUCKET_NAME cfg) !! (BUCKET_FOLDER_PATH cfg +:+ id) = None ->
  exists e,
    process_one cfg svc total (i, id) w
    = (Ok tt,
       after w [Print (LogProcessing i total (BUCKET_FOLDER_PATH cfg +:+ id));
                CallDownload (BUCKET_NAME cfg) (BUCKET_FOLDER_PATH cfg +:+ id);
                Print (LogProcessError (BUCKET_FOLDER_PATH cfg +:+ id) e)]) /\
    (download_error svc
       (trace w ++ [Print (LogProcessing i total (BUCKET_FOLDER_PATH cfg +:+ id))])
       (BUCKET_FOLDER_PATH cfg +:+ id) = None ->
     e = NotFound (BUCKET_FOLDER_PATH cfg +:+ id)).
Proof.
  intros Hmiss. unfold_pipeline. simpl. rewrite Hmiss.
  destruct (download_error svc _ _) as [e |]; simpl;
    eexists; (split; [unfold after; now rewrite <- !app_assoc |]);
    [discriminate | reflexivity].
Qed.

Lemma missing_object_is_not_found_witness :
  process_one Demo.cfg Demo.reliable 1 (1%nat, "x.jpg") Demo.twins
  = (Ok tt,
     after Demo.twins [Print (LogProcessing 1 1 "photos/x.jpg");
                       CallDownload "acervo" "photos/x.jpg";
                       Print (LogProcessError "photos/x.jpg"
                                              (NotFound "photos/x.jpg"))]).
Proof.
  destruct (missing_object_is_not_found Demo.cfg Demo.reliable 1 1 "x.jpg"
              Demo.twins) as (e & Hrun & He); [vm_compute; reflexivity |].
  rewrite Hrun. now rewrite He.
Defined.

(** X18. A deletion that failed is tried again by the next run.  If a run
    reports a failed deletion for a record, then the next run over the same
    bucket, once its two listings have succeeded, issues the delete call for
    that record again, whatever the prefix. *)
Theorem failed_deletion_is_retried (cfg : Config) (svc svc' : Services)
        (w w1 : World) (evs1 : list Event) (id : string) (e : Exn) :
  iterates_sets svc -> iterates_sets svc' ->
  main cfg svc w = (Ok tt, w1) ->
  trace w1 = trace w ++ evs1 ->
  DeleteFailed id e ∈ delete_outcomes evs1 ->
  list_blobs_error svc' (listing_history w1) = None ->
  stream_error svc' (stream_history cfg w1) = None ->
  exists w2 evs2,
    main cfg svc' w1 = (Ok tt, w2) /\
    trace w2 = trace w1 ++ evs2 /\
    id ∈ delete_calls evs2.
Proof.
  intros Hiter Hiter' Hmain Htr Hfail Hl2 Hs2.
  assert (id ∈ stored_ids w ∖ present_ids cfg w /\ is_Some (images w1 !! id)
          /\ storage w1 = storage w) as (Hstale & Hstill & Hsto).
  { destruct (main_outcome cfg svc Hiter w)
      as [(e0 & _ & Hrun) | [(e0 & _ & _ & Hrun) | (Hl & Hs & _)]].
    - rewrite Hrun in Hmain. discriminate.
    - rewrite Hrun in Hmain. injection Hmain as <-.
      unfold after in Htr. simpl in Htr. apply app_inv_head in Htr. subst evs1.
      inversion Hfail.
    - destruct (main_outcomes cfg svc Hiter w Hl Hs)
        as (w' & evs & Hrun & Htr' & Hst & Hdel & _ & _ & Hkept & _).
      rewrite Hrun in Hmain. injection Hmain as ->.
      rewrite Htr' in Htr. apply app_inv_head in Htr. subst evs.
      destruct (Hkept _ _ Hfail) as [Hsome Heq].
      destruct (deleted_as_elem _ _ _ Hdel Hfail) as (id' & Hid' & [H' | [e' H']]);
        [discriminate |]. injection H' as <- _.
      apply (set_order_elem svc Hiter) in Hid'.
      split; [exact Hid' |]. split; [now rewrite Heq | exact Hst]. }
  destruct (main_reconciled cfg svc' Hiter' w1 Hl2 Hs2)
    as (w2 & evs2 & Hrun2 & R).
  exists w2, evs2. split; [exact Hrun2 |]. split; [apply R |].
  rewrite (rc_deletes _ _ _ _ _ _ R). apply elem_of_elements.
  rewrite (present_ids_storage cfg w w1 Hsto).
  apply elem_of_difference in Hstale as [_ Hnp].
  apply elem_of_difference. split; [now apply elem_of_dom | exact Hnp].
Qed.

(** The record c.jpg, which the [flaky] store refused to delete, is deleted
    by a second run. *)
Lemma failed_deletion_is_retried_witness :
  exists w2 evs2,
    main Demo.cfg Demo.reliable Cases.two_new_after = (Ok tt, w2) /\
    trace w2 = trace Cases.two_new_after ++ evs2 /\
    "c.jpg" ∈ delete_calls evs2.
Proof.
  apply (failed_deletion_is_retried Demo.cfg Demo.flaky Demo.reliable Demo.two_new
           Cases.two_new_after (trace Cases.two_new_after) "c.jpg"
           (ServiceError "deadline")).
  - intros X. reflexivity.
  - intros X. reflexivity.
  - apply run_returns. vm_compute. reflexivity.
  - reflexivity.
  - vm_compute. left.
  - reflexivity.
  - reflexivity.
Defined.

(** * The turns of the two loops, one by one *)

Section Turns.
Import PyStr PyStrFacts.
Context (cfg : Config) (svc : Services).

Local Abbreviation prefix := (BUCKET_FOLDER_PATH cfg).
Local Abbreviation bucket := (BUCKET_NAME cfg).

(** One turn of the creation loop, with its calls. *)
Lemma process_one_turn (total i : nat) (id : string) (w : World) :
  exists chunk w',
    process_one cfg svc total (i, id) w = (Ok tt, w') /\
    trace w' = trace w ++ chunk /\ storage w' = storage w /\
    TurnOf cfg svc w id chunk.
Proof.
  unfold_pipeline. simpl.
  repeat case_match; simplify_eq /=; rewrite <- ?app_assoc; simpl.
  all: eexists; eexists; split; [reflexivity |]; simpl.
  all: split; [reflexivity |]; split; [reflexivity |].
  all: split; simpl; try reflexivity; try lia.
  all: try (intros img Hin; in_concrete_list; subst; eauto; fail).
  all: intros (Hd & (content & img & Hobj & Hopen & Hgen) & Hset).
  all: try (rewrite Hobj in *; simplify_eq).
  all: try (rewrite Hopen in *; simplify_eq).
  all: repeat match goal with
         | E : download_error svc ?h _ = Some _ |- _ =>
             rewrite (Hd h) in E; discriminate
         | E : set_error svc ?h ?md = Some _ |- _ =>
             rewrite (Hset h md eq_refl) in E; discriminate
         | E : generate_content svc ?h _ = Raise _ |- _ =>
             destruct (Hgen h) as (reply & Hr & _); rewrite Hr in E; discriminate
         | E : generate_content svc ?h _ = Ok ?r,
           T : translate svc ?h' (_ :: _) = Raise _,
           X : extract_tags ?r = _ :: _ |- _ =>
             destruct (Hgen h) as (reply & Hr & Htr); rewrite Hr in E;
             simplify_eq; destruct (Htr h') as (ts & Hts);
             [rewrite X; discriminate |];
             rewrite X in Hts; rewrite Hts in T; discriminate
         end.
Qed.

(** A turn reads the world only through the bucket. *)
Lemma turn_of_storage (w w1 : World) (id : string) (chunk : list Event) :
  storage w1 = storage w -> TurnOf cfg svc w1 id chunk -> TurnOf cfg svc w id chunk.
Proof.
  intros Hst [D Del P O T S A]. split; try assumption.
  - intros img Hin. rewrite <- Hst. now apply P.
  - intros Hans. apply A. unfold answers_for in *. now rewrite Hst.
Qed.

(** The creation loop is one turn after the other. *)
Lemma process_loop_turns (total : nat) (ids : list string) (start : nat) (w : World) :
  exists chunks w',
    for_each (enumerate ids start) (process_one cfg svc total) w = (Ok tt, w') /\
    trace w' = trace w ++ concat chunks /\ storage w' = storage w /\
    Forall2 (TurnOf cfg svc w) ids chunks.
Proof.
  revert start w. induction ids as [|id ids IH]; intros start w.
  - exists [], w. simpl. rewrite app_nil_r. auto.
  - destruct (process_one_turn total start id w)
      as (chunk & w1 & Hrun & Htr & Hst & Hturn).
    destruct (IH (S start) w1) as (chunks & w2 & Hrest & Htr2 & Hst2 & Hturns).
    exists (chunk :: chunks), w2. simpl enumerate.
    rewrite (for_each_cons _ _ _ _ _ Hrun).
    split; [exact Hrest |].
    split; [simpl; now rewrite Htr2, Htr, app_assoc |].
    split; [congruence |].
    constructor; [exact Hturn |].
    eapply Forall2_impl; [exact Hturns |].
    intros x y Hxy. now apply (turn_of_storage w w1).
Qed.

(** One turn of the deletion loop when the store accepts the deletion. *)
Lemma delete_one_answered (id : string) (w : World) :
  exists evs w',
    delete_one svc id w = (Ok tt, w') /\ trace w' = trace w ++ evs /\
    (deletes_for svc id -> delete_outcomes evs = [Deleted id]).
Proof.
  unfold delete_one, document_delete, try_except, bind, print, emit. simpl.
  destruct (delete_error svc (trace w) id) as [e |] eqn:E; simpl;
    rewrite <- ?app_assoc; simpl.
  - eexists. eexists. split; [reflexivity |]. split; [reflexivity |].
    intros H. rewrite (H (trace w)) in E. discriminate.
  - eexists. eexists. split; [reflexivity |]. split; [reflexivity |]. reflexivity.
Qed.

Lemma delete_loop_answered (ids : list string) (w : World) :
  exists evs w',
    for_each ids (delete_one svc) w = (Ok tt, w') /\ trace w' = trace w ++ evs /\
    forall id, id ∈ ids -> deletes_for svc id -> Deleted id ∈ delete_outcomes evs.
Proof.
  revert w. induction ids as [|id ids IH]; intros w.
  - exists [], w. simpl. rewrite app_nil_r.
    split; [reflexivity |]. split; [reflexivity |]. intros id Hin. inversion Hin.
  - destruct (delete_one_answered id w) as (evs1 & w1 & Hrun & Htr & Hans).
    destruct (IH w1) as (evs2 & w2 & Hrest & Htr2 & Hans2).
    exists (evs1 ++ evs2), w2. rewrite (for_each_cons _ _ _ _ _ Hrun).
    split; [exact Hrest |]. split; [now rewrite Htr2, Htr, app_assoc |].
    intros id' Hin Hok. rewrite delete_outcomes_app. apply elem_of_app.
    apply elem_of_cons in Hin as [-> | Hin].
    + left. rewrite (Hans Hok). left.
    + right. now apply Hans2.
Qed.




(** The calls of a sequence of turns, added up. *)
Lemma turns_totals (w : World) (ids : list string) (chunks : list (list Event)) :
  Forall2 (TurnOf cfg svc w) ids chunks ->
  delete_calls (concat chunks) = [] /\
  download_calls (concat chunks) = List.map (String.append prefix) ids /\
  (length (generate_calls (concat chunks)) <= length ids)%nat /\
  (length (translate_calls (concat chunks))
   <= length (generate_calls (concat chunks)))%nat /\
  (length (set_calls (concat chunks))
   <= length (generate_calls (concat chunks)))%nat.
Proof.
  induction 1 as [|id chunk ids chunks [D Del P O T S A] _ (I1 & I2 & I3 & I4 & I5)];
    [simpl; auto with lia |].
  simpl concat.
  rewrite delete_calls_app, download_calls_app, generate_calls_app,
    translate_calls_app, set_calls_app, !length_app, Del, D, I1, I2.
  simpl. repeat split; lia.
Qed.

Hypothesis Hiter : iterates_sets svc.

Lemma delete_removed_answered (X : gset string) (w : World) :
  exists evs w',
    delete_removed svc X w = (Ok tt, w') /\ trace w' = trace w ++ evs /\
    forall id, id ∈ X -> deletes_for svc id -> Deleted id ∈ delete_outcomes evs.
Proof.
  unfold delete_removed. destruct (decide (X = ∅)) as [-> | Hne].
  - exists [Print LogNoneRemoved]. eexists.
    split; [reflexivity |]. split; [reflexivity |].
    intros id Hin. now apply not_elem_of_empty in Hin.
  - destruct (delete_loop_answered (set_order svc X)
                (snd (print (LogDeleting (size X)) w)))
      as (evs & w' & Hrun & Htr & Hans).
    exists ([Print (LogDeleting (size X))] ++ evs), w'.
    split; [exact Hrun |]. split; [now rewrite Htr, app_assoc |].
    intros id Hin Hok. rewrite delete_outcomes_app. apply elem_of_app. right.
    apply Hans; [| exact Hok]. now apply (set_order_elem svc Hiter).
Qed.

(** Lines 153-166, turn by turn: the lines that announce the loop, then one
    turn for each new identifier, in iteration order. *)
Lemma process_new_turns (X : gset string) (w : World) :
  exists lead chunks w',
    process_new cfg svc X w = (Ok tt, w') /\
    trace w' = trace w ++ lead ++ concat chunks /\
    storage w' = storage w /\
    quiet lead /\
    Forall2 (TurnOf cfg svc w) (set_order svc X) chunks.
Proof.
  unfold process_new. destruct (decide (X = ∅)) as [-> | Hne].
  - rewrite (set_order_empty svc Hiter).
    exists [Print LogNoneNew], []. eexists.
    split; [reflexivity |]. split; [reflexivity |]. split; [reflexivity |].
    split; [repeat split | constructor].
  - pose (w0 := snd (print (LogNewCount (size X)) w)).
    pose (w1 := snd (print LogProcessingStart w0)).
    destruct (process_loop_turns (size X) (set_order svc X) 1 w1)
      as (chunks & w' & Hrun & Htr & Hst & Hturns).
    exists [Print (LogNewCount (size X)); Print LogProcessingStart], chunks, w'.
    split; [exact Hrun |].
    split; [rewrite Htr; simpl; now rewrite <- !app_assoc |].
    split; [exact Hst |]. split; [repeat split |].
    eapply Forall2_impl; [exact Hturns |].
    intros x y Hxy. now apply (turn_of_storage w w1).
Qed.

(** When both listings succeed: the events before the creation loop hold
    every delete call and no call of the pipeline; then comes one turn for
    each new identifier; then the closing line. *)
Lemma main_turns (w : World) :
  list_blobs_error svc (listing_history w) = None ->
  stream_error svc (stream_history cfg w) = None ->
  exists w' before chunks,
    main cfg svc w = (Ok tt, w') /\
    trace w' = trace w ++ before ++ concat chunks ++ [Print LogDone] /\
    delete_calls before = set_order svc (stored_ids w ∖ present_ids cfg w) /\
    (download_calls before = [] /\ generate_calls before = [] /\
     translate_calls before = [] /\ set_calls before = []) /\
    (forall id, id ∈ stored_ids w ∖ present_ids cfg w -> deletes_for svc id ->
       Deleted id ∈ delete_outcomes before) /\
    Forall2 (TurnOf cfg svc w)
            (set_order svc (present_ids cfg w ∖ stored_ids w)) chunks.
Proof.
  intros Hl Hs.
  set (toDelete := stored_ids w ∖ present_ids cfg w).
  set (toCreate := present_ids cfg w ∖ stored_ids w).
  destruct (delete_removed_run svc Hiter toDelete (at_reconcile cfg w))
    as (evs1 & w1 & Hrun1 & DP).
  destruct (delete_removed_answered toDelete (at_reconcile cfg w))
    as (evs1' & w1' & Hrun1' & Htr1 & Hans).
  rewrite Hrun1 in Hrun1'. injection Hrun1' as <-.
  assert (evs1' = evs1) as ->.
  { apply (app_inv_head (trace (at_reconcile cfg w))).
    now rewrite <- (dp_trace _ _ _ _ DP), <- Htr1. }
  destruct (process_new_turns toCreate w1)
    as (lead & chunks & w2 & Hrun2 & Htr2 & Hst2 & (Q1 & Q2 & Q3 & Q4 & Q5) & Hturns).
  pose proof (dp_storage _ _ _ _ DP) as Hst1.
  exists (after w2 [Print LogDone]),
    ([Print LogStart; CallListBlobs bucket prefix; CallStream] ++ evs1 ++ lead),
    chunks.
  split.
  { rewrite (main_reaches_reconcile cfg svc w Hl Hs).
    unfold reconcile, bind. fold toDelete toCreate. now rewrite Hrun1, Hrun2. }
  split.
  { unfold after. simpl. rewrite Htr2, Htr1. unfold at_reconcile, after. simpl.
    rewrite <- !app_assoc. reflexivity. }
  split.
  { simpl. rewrite delete_calls_app, Q1, app_nil_r. apply DP. }
  split.
  { simpl.
    rewrite download_calls_app, generate_calls_app, translate_calls_app,
      set_calls_app, Q2, Q3, Q4, Q5.
    rewrite (dp_downloads _ _ _ _ DP), (dp_generates _ _ _ _ DP),
      (dp_translates _ _ _ _ DP), (dp_sets _ _ _ _ DP). auto. }
  split.
  { intros id Hin Hok. simpl. rewrite delete_outcomes_app. apply elem_of_app.
    left. now apply Hans. }
  eapply Forall2_impl; [exact Hturns |].
  intros x y Hxy. apply (turn_of_storage w w1); [| exact Hxy].
  now rewrite Hst1.
Qed.

End Turns.

(** * Failures and successes, item by item *)





(** Where a reading of the events is empty, no event is read by it. *)
Lemma unread_at {A} (f : Event -> option A) (evs : list Event) (i : nat)
      (ev : Event) :
  omap f evs = [] -> evs !! i = Some ev -> f ev = None.
Proof.
  intros Hnone Hat. destruct (f ev) as [a |] eqn:E; [| reflexivity].
  assert (a ∈ omap f evs) as Hin.
  { apply list_elem_of_omap. exists ev. split; [| exact E].
    now apply list_elem_of_lookup_2 in Hat. }
  rewrite Hnone in Hin. inversion Hin.
Qed.

(** When the model calls all lie after a first stretch and the delete calls
    all lie in it, every delete call comes before every model call. *)
Lemma deletes_before_model_calls (first rest : list Event) (i j : nat)
      (img : Image) (id : string) :
  generate_calls first = [] -> delete_calls rest = [] ->
  (first ++ rest) !! i = Some (CallGenerate img) ->
  (first ++ rest) !! j = Some (CallDelete id) ->
  (j < i)%nat.
Proof.
  intros Hg Hd Hi Hj.
  apply lookup_app_Some in Hi as [Hi | [Hlen _]].
  { apply (unread_at _ _ _ _ Hg) in Hi. discriminate. }
  apply lookup_app_Some in Hj as [Hj | [_ Hj]].
  - apply lookup_lt_Some in Hj. lia.
  - apply (unread_at _ _ _ _ Hd) in Hj. discriminate.
Qed.

(** X9. The model is asked at most once per new picture, and never during
    the deletions; nothing is translated and nothing is saved without a model
    call.  Once both listings have succeeded, the events of the run are: a
    first stretch, which holds the delete calls (one per stale identifier)
    and no fetch, no model call, no translation and no save; then one
    stretch per new identifier, in iteration order, each identifier once;
    then the closing line; so every delete call comes before every model
    call.  The stretch of an identifier holds the one fetch
    of its path, no delete call, at most one model call, whose picture is
    the decoded object of that path, and no more translations and no more
    saves than model calls.  Over the whole run the model calls are at most
    as many as the new identifiers, and the translations and the saves at
    most as many as the model calls. *)
Theorem model_calls_bounded (cfg : Config) (svc : Services) (w : World) :
  iterates_sets svc ->
  list_blobs_error svc (listing_history w) = None ->
  stream_error svc (stream_history cfg w) = None ->
  exists w' evs before chunks,
    main cfg svc w = (Ok tt, w') /\
    trace w' = trace w ++ evs /\
    evs = before ++ concat chunks ++ [Print LogDone] /\
    delete_calls before ≡ₚ elements (stored_ids w ∖ present_ids cfg w) /\
    download_calls before = [] /\
    generate_calls before = [] /\
    translate_calls before = [] /\
    set_calls before = [] /\
    (forall i j img id,
        evs !! i = Some (CallGenerate img) -> evs !! j = Some (CallDelete id) ->
        (j < i)%nat) /\
    NoDup (set_order svc (present_ids cfg w ∖ stored_ids w)) /\
    Forall2 (TurnOf cfg svc w)
            (set_order svc (present_ids cfg w ∖ stored_ids w)) chunks /\
    (length (generate_calls evs) <= size (present_ids cfg w ∖ stored_ids w))%nat /\
    (length (translate_calls evs) <= length (generate_calls evs))%nat /\
    (length (set_calls evs) <= length (generate_calls evs))%nat.
Proof.
  intros Hiter Hl Hs.
  destruct (main_turns cfg svc Hiter w Hl Hs)
    as (w' & before & chunks & Hrun & Htr & Hd & (Q1 & Q2 & Q3 & Q4) & _ & Hturns).
  exists w', (before ++ concat chunks ++ [Print LogDone]), before, chunks.
  split; [exact Hrun |]. split; [exact Htr |]. split; [reflexivity |].
  split; [rewrite Hd; apply Hiter |].
  do 4 (split; [assumption |]).
  destruct (turns_totals cfg svc w _ _ Hturns) as (D & _ & G & T & S).
  split.
  { intros i j img id. apply deletes_before_model_calls; [exact Q2 |].
    now rewrite delete_calls_app, D. }
  split; [apply (set_order_nodup svc Hiter) |].
  split; [exact Hturns |].
  rewrite (set_order_length svc Hiter) in G.
  rewrite !generate_calls_app, !translate_calls_app, !set_calls_app, Q2, Q3, Q4.
  simpl. rewrite !app_nil_r. auto.
Qed.

Lemma model_calls_bounded_witness :
  exists w' evs before chunks,
    main Demo.cfg Demo.flaky Demo.two_new = (Ok tt, w') /\
    trace w' = trace Demo.two_new ++ evs /\
    evs = before ++ concat chunks ++ [Print LogDone] /\
    delete_calls before ≡ₚ ["c.jpg"; "e.jpg"] /\
    generate_calls before = [] /\
    (forall i j img id,
        evs !! i = Some (CallGenerate img) -> evs !! j = Some (CallDelete id) ->
        (j < i)%nat) /\
    Forall2 (TurnOf Demo.cfg Demo.flaky Demo.two_new)
            (elements ({["a.jpg"; "d.jpg"]} : gset string)) chunks /\
    (length (generate_calls evs) <= 2)%nat /\
    (length (translate_calls evs) <= length (generate_calls evs))%nat /\
    (length (set_calls evs) <= length (generate_calls evs))%nat.
Proof.
  destruct (model_calls_bounded Demo.cfg Demo.flaky Demo.two_new)
    as (w' & evs & before & chunks & Hrun & Htr & Hevs & Hd & _ & Hg & _ & _
        & Hord & _ & Hturns & Hn & Ht & Hset);
    [intros X; reflexivity | reflexivity | reflexivity |].
  exists w', evs, before, chunks. do 3 (split; [assumption |]).
  assert (present_ids Demo.cfg Demo.two_new ∖ stored_ids Demo.two_new
          = {["a.jpg"; "d.jpg"]}) as E by (vm_compute; reflexivity).
  assert (elements (stored_ids Demo.two_new ∖ present_ids Demo.cfg Demo.two_new)
          ≡ₚ ["c.jpg"; "e.jpg"]) as E'.
  { apply (bool_decide_unpack _). vm_compute. exact I. }
  split; [now rewrite Hd |]. split; [exact Hg |]. split; [exact Hord |].
  split; [now rewrite <- E |].
  split; [| auto].
  assert (size (present_ids Demo.cfg Demo.two_new ∖ stored_ids Demo.two_new)
          = 2%nat) as E2 by (vm_compute; reflexivity).
  now rewrite E2 in Hn.
Defined.
